(** * PyTeCK [simulation.py]: ignition-delay simulation driver and analyser

    A shallow embedding of [src/PyTeCK/simulation.py].

    Numbers.  The program computes with NumPy [float64] arrays.  They are
    embedded as lists of exact rationals [Q]: every arithmetic operation is
    the exact one, there is no rounding and there are no non-finite values.
    Statements about values use [==] (equality of rationals), statements
    about control flow (which branch, which exception) use [=].  All
    concrete inputs below are small dyadic or decimal numbers on which the
    comparisons made by the program have the same outcome.

    Exceptions.  A Python call that may raise returns a [result]; the
    exceptions that occur are [NameError] (reading an unbound local),
    [ValueError], [IndexError] and [AttributeError].

    External collaborators.  NumPy's [gradient], [interp], [arange],
    [argmax] and [where] are embedded from their behaviour on
    one-dimensional arrays; [np.gradient] is the one of the releases the
    module was written for, which take the second argument as the step
    ([Np.gradient]), and the one of NumPy 1.13 and later is given beside
    it ([Np13.gradient]).  The Cantera reactor, the gas model and the
    species table are opaque capabilities and enter as [Section] variables.
    The peak detector lives in another module of the package and is a
    [Section] variable as well; [DetectPeaks.detect_peaks] is a concrete
    detector used to run the analyser on explicit series. *)

From Stdlib Require Import String Ascii QArith Qround ZArith List Bool.
From Stdlib Require Import Lia Lqa Sorted.
Import ListNotations.

Local Open Scope Q_scope.

(** ** Python results and exceptions *)

Module Py.

Inductive exn : Set :=
| NameError
| ValueError
| IndexError
| AttributeError.

Inductive result (A : Type) : Type :=
| Ok (a : A)
| Raise (e : exn).

Arguments Ok {A} a.
Arguments Raise {A} e.

Definition bind {A B : Type} (c : result A) (k : A -> result B) : result B :=
  match c with
  | Ok a => k a
  | Raise e => Raise e
  end.

(** [xs[i]] on a Python list or a one-dimensional array, [i >= 0]. *)
Definition getitem {A : Type} (xs : list A) (i : nat) : result A :=
  match nth_error xs i with
  | Some a => Ok a
  | None => Raise IndexError
  end.

(** [[f(a) for a in xs]] where [f] may raise: the first exception wins. *)
Fixpoint mapM {A B : Type} (f : A -> result B) (xs : list A) : result (list B) :=
  match xs with
  | [] => Ok []
  | a :: xs' =>
      bind (f a) (fun b => bind (mapM f xs') (fun bs => Ok (b :: bs)))
  end.

End Py.

Import Py.

Notation "x <- c ;; k" := (Py.bind c (fun x => k))
  (at level 61, c at next level, right associativity).

Notation "' pat <- c ;; k" :=
  (Py.bind c (fun x => match x with pat => k end))
  (at level 61, pat pattern, c at next level, right associativity).

(** ** Comparisons of rationals as booleans *)

Definition Qltb (a b : Q) : bool := negb (Qle_bool b a).

(** Pointwise equality of two arrays of rationals. *)
Definition Qlist_eq : list Q -> list Q -> Prop := Forall2 Qeq.

(** ** NumPy on one-dimensional arrays *)

Module Np.

(** The second positional argument of [np.gradient]. *)
Inductive spacing : Type :=
| Scalar (h : Q)
| Array (d : list Q).

(** [out[1:-1] = (y[2:] - y[:-2]) / 2.0] *)
Fixpoint central (y : list Q) : list Q :=
  match y with
  | a :: (_ :: c :: _) as t => (c - a) / 2 :: central t
  | _ => []
  end.

(** [out[0]] and [out[-1]] with first-order edges:
    [y[1] - y[0]] and [y[-1] - y[-2]]. *)
Definition edge1 (y0 y1 : Q) : Q := y1 - y0.

(** [out[0] = -(3.0*y[0] - 4.0*y[1] + y[2]) / 2.0] *)
Definition edge2_first (y0 y1 y2 : Q) : Q := - (3 * y0 - 4 * y1 + y2) / 2.

(** [out[-1] = (3.0*y[-1] - 4.0*y[-2] + y[-3]) / 2.0] *)
Definition edge2_last (yn1 yn2 yn3 : Q) : Q := (3 * yn1 - 4 * yn2 + yn3) / 2.

(** The differences of [np.gradient] before the division by the step:
    fewer than two samples raise [ValueError]; two samples, or
    [edge_order = 1], use first-order edges; otherwise second-order edges. *)
Definition differences (edge_order : nat) (y : list Q) : result (list Q) :=
  match y, rev y with
  | y0 :: y1 :: rest, yn1 :: yn2 :: rrest =>
      match rest, rrest, Nat.eqb edge_order 1 with
      | y2 :: _, yn3 :: _, false =>
          Ok (edge2_first y0 y1 y2 :: central y ++ [edge2_last yn1 yn2 yn3])
      | _, _, _ =>
          Ok (edge1 y0 y1 :: central y ++ [edge1 yn2 yn1])
      end
  | _, _ => Raise ValueError
  end.

(** [out /= dx]: a scalar divides every element; an array divides
    element by element and must have the length of [out] (an array of
    length one broadcasts like a scalar); other lengths cannot be
    broadcast and raise [ValueError]. *)
Fixpoint divide_elementwise (out d : list Q) : result (list Q) :=
  match out, d with
  | [], [] => Ok []
  | o :: out', h :: d' =>
      r <- divide_elementwise out' d' ;; Ok (o / h :: r)
  | _, _ => Raise ValueError
  end.

Definition divide (out : list Q) (dx : spacing) : result (list Q) :=
  match dx with
  | Scalar h => Ok (map (fun o => o / h) out)
  | Array [h] => Ok (map (fun o => o / h) out)
  | Array d => divide_elementwise out d
  end.

(** [np.gradient(y, dx, edge_order=...)] for a one-dimensional [y], in the
    releases of NumPy the module was written for (before 1.13), where
    the positional argument is the step and the result is
    [differences / dx]. *)
Definition gradient (y : list Q) (dx : spacing) (edge_order : nat)
  : result (list Q) :=
  out <- differences edge_order y ;;
  divide out dx.

(** [binary_search_with_guess] on an increasing array, for a key inside
    [[arr[0], arr[-1]]]: the scan [for (i = 1; i < len && key >= arr[i]; i++)]
    that NumPy runs on short arrays; on an increasing array the bisection
    used for longer ones returns the same index [i - 1]. *)
Fixpoint scan (key : Q) (arr : list Q) : nat :=
  match arr with
  | a :: arr' => if Qle_bool a key then S (scan key arr') else 0%nat
  | [] => 0%nat
  end.

Definition search (key : Q) (arr : list Q) : nat := scan key (tl arr).

(** [np.interp(x, xp, fp, left, right)] for a scalar [x].  An empty [xp]
    and arrays of different lengths raise [ValueError]; [left] and [right]
    default to [fp[0]] and [fp[-1]]; NumPy does not check that [xp] is
    increasing. *)
Definition interp (x : Q) (xp fp : list Q) (left right : option Q)
  : result Q :=
  match xp, fp with
  | x0 :: _, f0 :: _ =>
      if Nat.eqb (length xp) (length fp) then
        let lval := match left with Some l => l | None => f0 end in
        let rval := match right with Some r => r | None => last fp f0 end in
        if Nat.eqb (length xp) 1 then
          Ok (if Qltb x x0 then lval else if Qltb x0 x then rval else f0)
        else if Qltb (last xp x0) x then Ok rval
        else if Qltb x x0 then Ok lval
        else
          let j := search x xp in
          if Nat.eqb j (length xp - 1) then Ok (nth j fp 0)
          else
            let slope := (nth (S j) fp 0 - nth j fp 0)
                         / (nth (S j) xp 0 - nth j xp 0) in
            Ok (slope * (x - nth j xp 0) + nth j fp 0)
      else Raise ValueError
  | _, _ => Raise ValueError
  end.

(** [np.arange(start, stop, step)] on floats, [step > 0]:
    [ceil((stop - start) / step)] samples [start + i * step].  The
    quotient is the exact one here.  NumPy rounds it to a [float64]
    before it takes the ceiling, so that on inputs whose quotient is
    within rounding of an integer its array is one sample longer or
    shorter than this one.  The properties of a grid below are stated
    of each of its samples; where one bounds the number of samples, the
    quotient is a whole sampling period away from the bound. *)
Definition arange (start stop step : Q) : list Q :=
  map (fun i => start + inject_Z (Z.of_nat i) * step)
      (seq 0 (Z.to_nat (Qceiling ((stop - start) / step)))).

(** [np.argmax(a)]: the first index of the largest element; an empty
    array raises [ValueError]. *)
Fixpoint argmax_from (best : Q) (besti i : nat) (a : list Q) : nat :=
  match a with
  | [] => besti
  | v :: a' =>
      if Qltb best v then argmax_from v i (S i) a'
      else argmax_from best besti (S i) a'
  end.

Definition argmax (a : list Q) : result nat :=
  match a with
  | [] => Raise ValueError
  | v :: a' => Ok (argmax_from v 0 1 a')
  end.

(** [np.where(mask)[0]]: the positions at which [mask] holds. *)
Fixpoint where_from (i : nat) (mask : list bool) : list nat :=
  match mask with
  | [] => []
  | b :: mask' =>
      if b then i :: where_from (S i) mask' else where_from (S i) mask'
  end.

Definition where_ (mask : list bool) : list nat := where_from 0 mask.

(** [a[idx]] with an integer index array. *)
Definition take {A : Type} (a : list A) (idx : list nat) : result (list A) :=
  mapM (getitem a) idx.

End Np.

(** ** [first_derivative] *)

(** [return (np.gradient(y, np.gradient(x), edge_order=2))] *)
Definition first_derivative (x y : list Q) : result (list Q) :=
  gx <- Np.gradient x (Np.Scalar 1) 1 ;;
  Np.gradient y (Np.Array gx) 2.

(** A linear signal [y = m * x + c] sampled at [x]. *)
Definition linear (m c : Q) (x : list Q) : list Q :=
  map (fun xi => m * xi + c) x.

(** ** [sample_rising_pressure] and [create_volume_history] *)

(** [times = np.arange(0.0, time_end + (1.0 / freq), (1.0 / freq))]
    [pressures = init_pres * (pressure_rise_rate * times + 1.0)] *)
Definition sample_rising_pressure (time_end init_pres freq pressure_rise_rate : Q)
  : list Q * list Q :=
  let times := Np.arange 0 (time_end + 1 / freq) (1 / freq) in
  let pressures :=
    map (fun t => init_pres * (pressure_rise_rate * t + 1)) times in
  (times, pressures).

(** The Cantera [Solution] object: a mechanism, a composition and the pair
    of state variables that was set last. *)
Module Ct.

Inductive state : Type :=
| Unset
| TP (temp pres : Q)
| SP (entropy pres : Q).

Record Solution : Type := {
  mech : string;
  X : string;
  thermo_state : state
}.

Definition new (mechanism : string) : Solution :=
  {| mech := mechanism; X := EmptyString; thermo_state := Unset |}.

(** [gas.TPX = temp, pres, reactants] *)
Definition set_TPX (gas : Solution) (temp pres : Q) (reactants : string)
  : Solution :=
  {| mech := mech gas; X := reactants; thermo_state := TP temp pres |}.

(** [gas.SP = entropy, pres] *)
Definition set_SP (gas : Solution) (entropy pres : Q) : Solution :=
  {| mech := mech gas; X := X gas; thermo_state := SP entropy pres |}.

End Ct.

Section Gas.

(** The equation of state of the gas model, per mechanism and
    composition: density and specific entropy at a temperature and
    pressure, density and specific entropy at an entropy and pressure,
    and the same for a freshly loaded phase. *)
Variable density_TP : string -> string -> Q -> Q -> Q.
Variable entropy_TP : string -> string -> Q -> Q -> Q.
Variable density_SP : string -> string -> Q -> Q -> Q.
Variable density_default entropy_default : string -> Q.

(** [gas.density] *)
Definition density (gas : Ct.Solution) : Q :=
  match Ct.thermo_state gas with
  | Ct.Unset => density_default (Ct.mech gas)
  | Ct.TP t p => density_TP (Ct.mech gas) (Ct.X gas) t p
  | Ct.SP s p => density_SP (Ct.mech gas) (Ct.X gas) s p
  end.

(** [gas.entropy_mass] *)
Definition entropy_mass (gas : Ct.Solution) : Q :=
  match Ct.thermo_state gas with
  | Ct.Unset => entropy_default (Ct.mech gas)
  | Ct.TP t p => entropy_TP (Ct.mech gas) (Ct.X gas) t p
  | Ct.SP s _ => s
  end.

(** The loop
    [for i, p in enumerate(pressures): gas.SP = initial_entropy, p;
     volumes[i] = initial_density / gas.density]
    threading the gas object. *)
Fixpoint volume_loop (gas : Ct.Solution) (initial_entropy initial_density : Q)
         (pressures : list Q) : list Q :=
  match pressures with
  | [] => []
  | p :: ps =>
      let gas' := Ct.set_SP gas initial_entropy p in
      initial_density / density gas'
        :: volume_loop gas' initial_entropy initial_density ps
  end.

Definition create_volume_history (mech : string) (temp pres : Q)
           (reactants : string) (pres_rise time_end : Q) : list Q * list Q :=
  let gas := Ct.new mech in
  let gas := Ct.set_TPX gas temp pres reactants in
  let initial_entropy := entropy_mass gas in
  let initial_density := density gas in
  let freq := 20000 in
  let '(times, pressures) :=
    sample_rising_pressure time_end pres freq pres_rise in
  let volumes := volume_loop gas initial_entropy initial_density pressures in
  (times, volumes).

End Gas.

(** ** [VolumeProfile] and [PressureRiseProfile] *)

(** The attributes [self.times] and [self.velocity]; the subclass adds
    none. *)
Record VolumeProfile : Type := {
  times : list Q;
  velocity : list Q
}.

(** [VolumeProfile.__init__(properties)], with the magnitudes of
    [properties['time']] and [properties['volume']]. *)
Definition VolumeProfile_init (time volume : list Q) : result VolumeProfile :=
  v0 <- getitem volume 0 ;;
  let volumes := map (fun v => v / v0) volume in
  vel <- first_derivative time volumes ;;
  Ok {| times := time; velocity := vel |}.

(** [PressureRiseProfile.__init__] *)
Definition PressureRiseProfile_init
           (density_TP entropy_TP density_SP : string -> string -> Q -> Q -> Q)
           (density_default entropy_default : string -> Q)
           (mech_filename : string) (initial_temp initial_pres : Q)
           (reactants : string) (pressure_rise time_end : Q)
  : result VolumeProfile :=
  let '(ts, volumes) :=
    create_volume_history density_TP entropy_TP density_SP
                          density_default entropy_default
                          mech_filename initial_temp initial_pres
                          reactants pressure_rise time_end in
  vel <- first_derivative ts volumes ;;
  Ok {| times := ts; velocity := vel |}.

(** [VolumeProfile.__call__(time)], inherited by [PressureRiseProfile]. *)
Definition call (self : VolumeProfile) (time : Q) : result Q :=
  Np.interp time (times self) (velocity self) (Some 0) (Some 0).

(** The value at [t] of the straight line through [(t0, v0)] and
    [(t1, v1)]. *)
Definition lerp (t0 v0 t1 v1 t : Q) : Q :=
  v0 + (t - t0) * (v1 - v0) / (t1 - t0).

(** ** Python strings *)

(** [c.lower()] on an ASCII character. *)
Definition lower_ascii (c : ascii) : ascii :=
  let n := nat_of_ascii c in
  if (Nat.leb 65 n && Nat.leb n 90)%bool then ascii_of_nat (n + 32) else c.

(** [s.lower()] *)
Fixpoint lower (s : string) : string :=
  match s with
  | EmptyString => EmptyString
  | String c s' => String (lower_ascii c) (lower s')
  end.

(** [s[-1]] *)
Fixpoint last_char (s : string) : result ascii :=
  match s with
  | EmptyString => Raise IndexError
  | String c EmptyString => Ok c
  | String _ s' => last_char s'
  end.

(** [s[:-1]] *)
Fixpoint drop_last (s : string) : string :=
  match s with
  | EmptyString => EmptyString
  | String _ EmptyString => EmptyString
  | String c s' => String c (drop_last s')
  end.

(** ** The [Simulation] class *)

(** [self.ignition_target]: a string until [setup_case] replaces the name
    of a species by its index. *)
Inductive target : Type :=
| Name (s : string)
| Index (i : nat).

(** A time with units: a number of seconds or [np.nan * units.second]. *)
Inductive quantity : Type :=
| Seconds (q : Q)
| NaN_seconds.

(** The keys of [self.properties] that the driver and the analyser use. *)
Record properties : Type := {
  ignition_delay : Q;
  compression_time : option Q;
  simulated_ignition_delay : option quantity;
  simulated_first_stage_delay : option quantity
}.

Record Simulation : Type := {
  kind : string;
  props : properties;
  ignition_target : target;
  ignition_type : string;
  time_end : option Q
}.

(** One row of the [simulation] table. *)
Module Table.

Record row : Type := {
  time : Q;
  temperature : Q;
  pressure : Q;
  volume : Q;
  mass_fractions : list Q
}.

End Table.

(** *** [setup_case]: end time and ignition target *)

Section Mechanism.

(** [self.gas.species_index(sp)]: [None] stands for the [ValueError] that
    the loop catches. *)
Variable species_index : string -> option nat.

(** [for sp in try_list: try: ind = species_index(sp); break
     except ValueError: pass], from [ind = None]. *)
Fixpoint lookup_first (try_list : list string) : option nat :=
  match try_list with
  | [] => None
  | sp :: rest =>
      match species_index sp with
      | Some i => Some i
      | None => lookup_first rest
      end
  end.

(** The candidates, in the order they are tried. *)
Definition try_list (spec : string) : result (list string) :=
  c <- last_char spec ;;
  Ok ([spec; lower spec]
        ++ (if Ascii.eqb c "*"
            then [drop_last spec; lower (drop_last spec)]
            else [])).

(** Truth value of [ind] in [if ind:]: [None] is false, an integer is
    true unless it is zero. *)
Definition truthy (ind : option nat) : bool :=
  match ind with
  | Some i => negb (Nat.eqb i 0)
  | None => false
  end.

Definition warning (spec : string) : string :=
  ("Warning: " ++ spec ++ " not found in model; falling back on pressure.")
    %string.

Definition with_target (self : Simulation) (te : option Q)
           (tgt : target) (ty : string) : Simulation :=
  {| kind := kind self; props := props self;
     ignition_target := tgt; ignition_type := ty; time_end := te |}.

(** The part of [setup_case] that does not build Cantera objects: the end
    time (line 225) and the ignition target (lines 298-325).  The second
    component is what the call prints. *)
Definition setup_case (self : Simulation) : result (Simulation * list string) :=
  let te := Some (100 * ignition_delay (props self)) in
  match ignition_target self with
  | Name spec =>
      if (String.eqb spec "pressure" || String.eqb spec "temperature")%bool
      then Ok (with_target self te (Name spec) (ignition_type self), [])
      else
        tl <- try_list spec ;;
        let ind := lookup_first tl in
        match ind, truthy ind with
        | Some i, true =>
            Ok (with_target self te (Index i) (ignition_type self), [])
        | _, _ =>
            Ok (with_target self te (Name "pressure") "d/dt max",
                [warning spec])
        end
  | Index _ => Raise AttributeError
  end.

End Mechanism.

(** *** [run_case]: the integration loop *)

(** The locals [prev_time], [prev_temp], [prev_pres], [prev_vol] and
    [prev_mass_frac]; they are bound together, at the end of an
    iteration. *)
Record previous : Type := {
  prev_time : Q;
  prev_temp : Q;
  prev_pres : Q;
  prev_vol : Q;
  prev_mass_frac : list Q
}.

Section Reactor.

(** The reactor network: [reac_net.step(t)] and the properties read by
    the loop. *)
Variable reactor : Type.
Variable net_step : Q -> reactor -> reactor.
Variable net_time : reactor -> Q.
Variable reac_T : reactor -> Q.
Variable thermo_P : reactor -> Q.
Variable reac_volume : reactor -> Q.
Variable reac_Y : reactor -> list Q.

(** The row written from the current state. *)
Definition current_row (r : reactor) : Table.row :=
  {| Table.time := net_time r;
     Table.temperature := reac_T r;
     Table.pressure := thermo_P r;
     Table.volume := reac_volume r;
     Table.mass_fractions := reac_Y r |}.

Definition save_previous (r : reactor) : previous :=
  {| prev_time := net_time r;
     prev_temp := reac_T r;
     prev_pres := thermo_P r;
     prev_vol := reac_volume r;
     prev_mass_frac := reac_Y r |}.

(** The branch [if self.reac_net.time > self.time_end]: reading an
    unbound [prev_time] raises [NameError]. *)
Definition interpolated_row (te : Q) (prev : option previous) (r : reactor)
  : result Table.row :=
  match prev with
  | None => Raise NameError
  | Some p =>
      let xp := [prev_time p; net_time r] in
      temp <- Np.interp te xp [prev_temp p; reac_T r] None None ;;
      pres <- Np.interp te xp [prev_pres p; thermo_P r] None None ;;
      vol <- Np.interp te xp [prev_vol p; reac_volume r] None None ;;
      mass_fracs <-
        mapM (fun i =>
                a <- getitem (prev_mass_frac p) i ;;
                b <- getitem (reac_Y r) i ;;
                Np.interp te xp [a; b] None None)
             (seq 0 (length (reac_Y r))) ;;
      Ok {| Table.time := te;
            Table.temperature := temp;
            Table.pressure := pres;
            Table.volume := vol;
            Table.mass_fractions := mass_fracs |}
  end.

(** [while self.reac_net.time < self.time_end: ...]; [None] when [fuel]
    iterations were not enough to leave the loop. *)
Fixpoint integrate (fuel : nat) (te : Q) (r : reactor)
         (prev : option previous) (table : list Table.row)
  : option (result (list Table.row)) :=
  if Qltb (net_time r) te then
    match fuel with
    | O => None
    | S fuel' =>
        let r' := net_step te r in
        let timestep :=
          if Qltb te (net_time r') then interpolated_row te prev r'
          else Ok (current_row r') in
        match timestep with
        | Raise e => Some (Raise e)
        | Ok row =>
            integrate fuel' te r' (Some (save_previous r')) (table ++ [row])
        end
    end
  else Some (Ok table).

(** [run_case]: the rows of the table that is flushed to disk. *)
Definition run_case (fuel : nat) (self : Simulation) (r : reactor)
  : option (result (list Table.row)) :=
  match time_end self with
  | None => Some (Raise AttributeError)
  | Some te => integrate fuel te r None [current_row r]
  end.

End Reactor.

(** *** [process_results]: the ignition delays *)

Section Analysis.

(** [detect_peaks] of the package's [detect_peaks] module, called with
    its default parameters: the indices of the peaks of a series, as an
    integer array. *)
Variable detect_peaks : list Q -> list nat.

(** [table.col('mass_fractions')[:, k]] on a table whose rows hold
    [n_species] mass fractions. *)
Definition mass_fraction_column (table : list Table.row) (k : nat)
  : result (list Q) :=
  mapM (fun row => getitem (Table.mass_fractions row) k) table.

(** The diagnostic channel; indexing the mass fractions with a string
    raises [IndexError]. *)
Definition channel (self : Simulation) (table : list Table.row)
  : result (list Q) :=
  match ignition_target self with
  | Name s =>
      if String.eqb s "pressure" then Ok (map Table.pressure table)
      else if String.eqb s "temperature" then Ok (map Table.temperature table)
      else Raise IndexError
  | Index k => mass_fraction_column table k
  end.

(** Lines 438-448: the channel on which peaks are sought and the indices
    of its peaks. *)
Definition find_peaks (self : Simulation) (time target : list Q)
  : result (list Q * list nat) :=
  target <- (if String.eqb (ignition_type self) "d/dt max"
             then first_derivative time target
             else Ok target) ;;
  let ind := detect_peaks target in
  if (Nat.eqb (length ind) 0 && String.eqb (ignition_type self) "max")%bool
  then
    target <- first_derivative time target ;;
    Ok (target, detect_peaks target)
  else Ok (target, ind).

(** Lines 461-463:
    [time[ind[np.where((time[ind[ind <= max_ind]] - time_comp) > 0)]]
     - time_comp]. *)
Definition ignition_delays (time : list Q) (ind : list nat) (max_ind : nat)
           (time_comp : Q) : result (list Q) :=
  let upto := filter (fun p => Nat.leb p max_ind) ind in
  t_upto <- Np.take time upto ;;
  let positions := Np.where_ (map (fun t => Qltb 0 (t - time_comp)) t_upto) in
  selected <- Np.take ind positions ;;
  t_sel <- Np.take time selected ;;
  Ok (map (fun t => t - time_comp) t_sel).

(** Lines 450-474, from the channel and its peaks to the two delays. *)
Definition select_delays (self : Simulation) (time target : list Q)
           (ind : list nat) : result (quantity * quantity) :=
  peak_values <- Np.take target ind ;;
  k <- Np.argmax peak_values ;;
  max_ind <- getitem ind k ;;
  let time_comp :=
    match compression_time (props self) with
    | Some tc => tc
    | None => 0
    end in
  ign_delays <- ignition_delays time ind max_ind time_comp ;;
  let overall :=
    if Nat.ltb 0 (length ign_delays)
    then Seconds (last ign_delays 0)
    else Seconds 0 in
  let first_stage :=
    if Nat.ltb 1 (length ign_delays)
    then Seconds (hd 0 ign_delays)
    else NaN_seconds in
  Ok (overall, first_stage).

Definition store_delays (self : Simulation) (d : quantity * quantity)
  : Simulation :=
  {| kind := kind self;
     props := {| ignition_delay := ignition_delay (props self);
                 compression_time := compression_time (props self);
                 simulated_ignition_delay := Some (fst d);
                 simulated_first_stage_delay := Some (snd d) |};
     ignition_target := ignition_target self;
     ignition_type := ignition_type self;
     time_end := time_end self |}.

(** [process_results], on the rows read back from the saved table. *)
Definition process_results (self : Simulation) (table : list Table.row)
  : result Simulation :=
  let time := map Table.time table in
  target <- channel self table ;;
  '(target, ind) <- find_peaks self time target ;;
  d <- select_delays self time target ind ;;
  Ok (store_delays self d).

End Analysis.

(** ** A peak detector *)

Module DetectPeaks.

(** Modelled from the spec: the package's [detect_peaks] module is not
    among the sources.  The detector returns the ordered indices of the
    local maxima of a series and an empty array on a monotone or a
    constant one; here a local maximum is an interior sample that is
    greater than its left neighbour and not smaller than its right one. *)
Fixpoint peaks_from (i : nat) (x : list Q) : list nat :=
  match x with
  | a :: (b :: c :: _) as t =>
      if (Qltb a b && Qle_bool c b)%bool
      then i :: peaks_from (S i) t
      else peaks_from (S i) t
  | _ => []
  end.

Definition detect_peaks (x : list Q) : list nat := peaks_from 1 x.

End DetectPeaks.

(** ** A scripted reactor *)

(** A stepper that replays a list of known states: the head is the
    current state and each [step] moves to the next one (the last state
    stays). *)
Module Scripted.

Definition reactor : Type := list Table.row.

Definition net_step (_ : Q) (r : reactor) : reactor :=
  match r with
  | _ :: (_ :: _) as rest => rest
  | _ => r
  end.

Definition observe {A : Type} (f : Table.row -> A) (d : A) (r : reactor) : A :=
  match r with
  | s :: _ => f s
  | [] => d
  end.

Definition net_time : reactor -> Q := observe Table.time 0.
Definition reac_T : reactor -> Q := observe Table.temperature 0.
Definition thermo_P : reactor -> Q := observe Table.pressure 0.
Definition reac_volume : reactor -> Q := observe Table.volume 0.
Definition reac_Y : reactor -> list Q := observe Table.mass_fractions [].

Definition run_case (fuel : nat) (self : Simulation) (r : reactor)
  : option (result (list Table.row)) :=
  run_case reactor net_step net_time reac_T thermo_P reac_volume reac_Y
           fuel self r.

End Scripted.

(** ** Explicit cases *)

Module Cases.

(** A shock-tube case with a declared delay of 1 s, after [setup_case]:
    the end time is 100 s. *)
Definition shock_tube (tgt : target) (ty : string) : Simulation :=
  {| kind := "ST";
     props := {| ignition_delay := 1;
                 compression_time := None;
                 simulated_ignition_delay := None;
                 simulated_first_stage_delay := None |};
     ignition_target := tgt;
     ignition_type := ty;
     time_end := Some 100 |}.

Definition state (t temp pres vol : Q) (Y : list Q) : Table.row :=
  {| Table.time := t; Table.temperature := temp; Table.pressure := pres;
     Table.volume := vol; Table.mass_fractions := Y |}.

(** A reactor whose first advance goes from time 0 to time 200, past the
    end time 100. *)
Definition overshoot_at_once : Scripted.reactor :=
  [state 0 1000 100 1 [1; 0];
   state 200 1400 180 1 [0; 1]].

(** A reactor that stops at time 50 before it goes to time 200. *)
Definition overshoot_later : Scripted.reactor :=
  [state 0 1000 100 1 [1; 0];
   state 50 1100 120 1 [3 # 4; 1 # 4];
   state 200 1400 180 1 [0; 1]].

(** A recorded series of times and pressures at constant temperature
    and volume, with a single species. *)
Definition series (ts ps : list Q) : list Table.row :=
  map (fun tp => state (fst tp) 1000 (snd tp) 1 [1]) (combine ts ps).

(** A pressure that only rises, at a constant rate. *)
Definition monotone : list Table.row :=
  series [0; 1; 2; 3] [1; 2; 3; 4].

(** A pressure that only rises, fastest between the samples 1 and 2. *)
Definition rising_front : list Table.row :=
  series [0; 1; 2; 3; 4] [0; 1; 3; 4; 9 # 2].

(** A pressure with peaks at the samples 1, 3 and 5, the largest at 3. *)
Definition three_peaks : list Table.row :=
  series [0; 1; 2; 3; 4; 5; 6] [0; 2; 1; 5; 3; 4; 0].

(** A rapid-compression case with a compression time of 1 s. *)
Definition rcm (tgt : target) (ty : string) : Simulation :=
  {| kind := "RCM";
     props := {| ignition_delay := 1;
                 compression_time := Some 1;
                 simulated_ignition_delay := None;
                 simulated_first_stage_delay := None |};
     ignition_target := tgt;
     ignition_type := ty;
     time_end := Some 100 |}.

End Cases.

(** ** A species table *)

(** [species_index] of a phase whose species are [names], in this order:
    the position of the exact name. *)
Fixpoint index_of (names : list string) (sp : string) : option nat :=
  match names with
  | [] => None
  | n :: names' =>
      if String.eqb n sp then Some 0%nat
      else option_map S (index_of names' sp)
  end.

(** ** The delay selection as the specification words it *)

Module Spec.

(** [{ time[p] - compression_time : p in peaks, p <= max_peak,
       time[p] - compression_time > 0 }], in the order of the peaks. *)
Definition candidate_delays (time : list Q) (peaks : list nat)
           (max_peak : nat) (compression_time : Q) : list Q :=
  map (fun p => nth p time 0 - compression_time)
      (filter (fun p => (Nat.leb p max_peak
                         && Qltb 0 (nth p time 0 - compression_time))%bool)
              peaks).

(** The last candidate when there is one, 0 s otherwise. *)
Definition overall_delay (candidates : list Q) : quantity :=
  match candidates with
  | [] => Seconds 0
  | _ :: _ => Seconds (last candidates 0)
  end.

(** The first candidate when there are at least two, NaN otherwise. *)
Definition first_stage_delay (candidates : list Q) : quantity :=
  match candidates with
  | c :: _ :: _ => Seconds c
  | _ => NaN_seconds
  end.

End Spec.

(** ** The query contract of a velocity profile *)

Module Contract.

(** Zero before the first and after the last sample time, and between two
    consecutive sample times the value of the line through the two
    samples. *)
Definition query (p : VolumeProfile) : Prop :=
  (forall t, t < nth 0 (times p) 0 -> call p t = Ok 0)
  /\ (forall t, last (times p) 0 < t -> call p t = Ok 0)
  /\ (forall t j,
        (S j < length (times p))%nat ->
        nth j (times p) 0 <= t -> t <= nth (S j) (times p) 0 ->
        exists v,
          call p t = Ok v
          /\ v == lerp (nth j (times p) 0) (nth j (velocity p) 0)
                       (nth (S j) (times p) 0) (nth (S j) (velocity p) 0) t).

End Contract.

(** ** An ideal gas *)

(** An equation of state to run the pressure-rise profile on: density
    [p / (R T)] with [R = 1], and an entropy that is its own measure of
    temperature, so that the density at [(s, p)] is [p / s]. *)
Module IdealGas.

Definition density_TP (_ _ : string) (temp pres : Q) : Q := pres / temp.
Definition entropy_TP (_ _ : string) (temp _ : Q) : Q := temp.
Definition density_SP (_ _ : string) (entropy pres : Q) : Q := pres / entropy.
Definition density_default (_ : string) : Q := 1.
Definition entropy_default (_ : string) : Q := 1.

Definition create_volume_history :=
  create_volume_history density_TP entropy_TP density_SP
                        density_default entropy_default.

Definition PressureRiseProfile_init :=
  PressureRiseProfile_init density_TP entropy_TP density_SP
                           density_default entropy_default.

End IdealGas.

(** ** [np.gradient] from NumPy 1.13 on *)

(** Later releases read an array in the second argument as the
    coordinates of the samples, not as their spacing.  The model is for a
    one-dimensional [f], coordinates that are pairwise distinct where
    they are subtracted (NumPy returns non-finite values otherwise) and
    [edge_order = 2]. *)
Module Np13.

(** [np.diff(x)] *)
Fixpoint diff (x : list Q) : list Q :=
  match x with
  | a :: (b :: _) as t => (b - a) :: diff t
  | _ => []
  end.

(** [(diffx == diffx[0]).all()] *)
Definition constant (d : list Q) : bool :=
  match d with
  | [] => true
  | d0 :: _ => forallb (fun v => Qeq_bool v d0) d
  end.

(** Interior, uniform spacing:
    [out[1:-1] = (f[2:] - f[:-2]) / (2. * ax_dx)]. *)
Fixpoint interior_uniform (f : list Q) (dx : Q) : list Q :=
  match f with
  | f0 :: (_ :: f2 :: _) as t => (f2 - f0) / (2 * dx) :: interior_uniform t dx
  | _ => []
  end.

(** Interior, non-uniform spacing:
    [out[1:-1] = a * f[:-2] + b * f[1:-1] + c * f[2:]] with
    [a = -(dx2)/(dx1 * (dx1 + dx2))], [b = (dx2 - dx1) / (dx1 * dx2)],
    [c = dx1 / (dx2 * (dx1 + dx2))]. *)
Fixpoint interior (f dx : list Q) : list Q :=
  match f, dx with
  | f0 :: (f1 :: f2 :: _) as ft, dx1 :: (dx2 :: _) as dt =>
      let a := - dx2 / (dx1 * (dx1 + dx2)) in
      let b := (dx2 - dx1) / (dx1 * dx2) in
      let c := dx1 / (dx2 * (dx1 + dx2)) in
      a * f0 + b * f1 + c * f2 :: interior ft dt
  | _, _ => []
  end.

(** [np.gradient(f, x, edge_order=2)] with an array [x]. *)
Definition gradient (f x : list Q) : result (list Q) :=
  if negb (Nat.eqb (length x) (length f)) then Raise ValueError
  else
    match f, rev f, diff x, rev (diff x) with
    | f0 :: f1 :: f2 :: _, fn1 :: fn2 :: fn3 :: _,
      dx1 :: dx2 :: _, dxn1 :: dxn2 :: _ =>
        if constant (diff x) then
          let dx := dx1 in
          Ok ((-(3 # 2) / dx) * f0 + (2 / dx) * f1 + (-(1 # 2) / dx) * f2
                :: interior_uniform f dx
                ++ [((1 # 2) / dx) * fn3 + (-(2) / dx) * fn2
                    + ((3 # 2) / dx) * fn1])
        else
          Ok ((-(2 * dx1 + dx2) / (dx1 * (dx1 + dx2))) * f0
              + ((dx1 + dx2) / (dx1 * dx2)) * f1
              + (- dx1 / (dx2 * (dx1 + dx2))) * f2
                :: interior f (diff x)
                ++ [(dxn1 / (dxn2 * (dxn2 + dxn1))) * fn3
                    + (- (dxn1 + dxn2) / (dxn2 * dxn1)) * fn2
                    + ((2 * dxn1 + dxn2) / (dxn1 * (dxn2 + dxn1))) * fn1])
    | _, _, _, _ => Raise ValueError
    end.

(** [first_derivative] when [np.gradient] is the later one. *)
Definition first_derivative (x y : list Q) : result (list Q) :=
  gx <- Np.gradient x (Np.Scalar 1) 1 ;;
  gradient y gx.

End Np13.


(** ** A reactor that advances by a fixed step *)

(** A stepper whose state is its time: each [step] advances by 30 s; the
    temperature follows the time and the two mass fractions stay equal. *)
Module Ticker.

Definition reactor : Type := Q.
Definition net_step (_ : Q) (t : reactor) : reactor := t + 30.
Definition net_time (t : reactor) : Q := t.
Definition reac_T (t : reactor) : Q := 1000 + t.
Definition thermo_P (_ : reactor) : Q := 100.
Definition reac_volume (_ : reactor) : Q := 1.
Definition reac_Y (_ : reactor) : list Q := [1 # 2; 1 # 2].

Definition run_case (fuel : nat) (self : Simulation) (r : reactor)
  : option (result (list Table.row)) :=
  run_case reactor net_step net_time reac_T thermo_P reac_volume reac_Y
           fuel self r.

End Ticker.


(** ** The bound on the time step *)

(** [np.min(a)]: an empty array raises [ValueError]. *)
Fixpoint min_from (best : Q) (a : list Q) : Q :=
  match a with
  | [] => best
  | v :: a' => min_from (if Qltb v best then v else best) a'
  end.

Definition np_min (a : list Q) : result Q :=
  match a with
  | [] => Raise ValueError
  | v :: a' => Ok (min_from v a')
  end.

(** Lines 293-296 of [setup_case], for a case with a ['time'] key:
    [min_time = np.min(np.diff(self.properties['time'].magnitude))], the
    value passed to [set_max_time_step]. *)
Definition max_time_step (time : list Q) : result Q :=
  np_min (Np13.diff time).

(** * Properties *)

(** ** Comparisons *)

Lemma Qltb_lt (a b : Q) : Qltb a b = true <-> a < b.
Proof.
  unfold Qltb. rewrite negb_true_iff. split.
  - intro H. apply Qnot_le_lt. intro Hle.
    apply Qle_bool_iff in Hle. congruence.
  - intro H. destruct (Qle_bool b a) eqn:E; [|reflexivity].
    apply Qle_bool_iff in E. exfalso. apply (Qlt_not_le _ _ H E).
Qed.

Lemma Qltb_ge (a b : Q) : Qltb a b = false <-> b <= a.
Proof.
  unfold Qltb. rewrite negb_false_iff. apply Qle_bool_iff.
Qed.

Example first_derivative_uniform :
  exists d, first_derivative [0; 1; 2; 3] [1; 3; 5; 7] = Ok d
            /\ Qlist_eq d [2; 2; 2; 2].
Proof.
  eexists. split; [vm_compute; reflexivity|].
  repeat constructor.
Qed.

(** *** Closed form of [first_derivative] *)

Section GradientFacts.

Local Notation "y .[ i ]" := (nth i y 0) (at level 1, format "y .[ i ]").

Lemma central_length (y : list Q) : length (Np.central y) = (length y - 2)%nat.
Proof.
  induction y as [|a [|b [|c t]] IH]; try reflexivity.
  change (Np.central (a :: b :: c :: t))
    with ((c - a) / 2 :: Np.central (b :: c :: t)).
  simpl length in *. rewrite IH. lia.
Qed.

Lemma central_nth (y : list Q) (i : nat) :
  (i + 2 < length y)%nat ->
  (Np.central y).[i] = (y.[i + 2] - y.[i]) / 2.
Proof.
  revert i. induction y as [|a [|b [|c t]] IH]; intros i Hi;
    try (simpl in Hi; lia).
  change (Np.central (a :: b :: c :: t))
    with ((c - a) / 2 :: Np.central (b :: c :: t)).
  destruct i as [|i]; [reflexivity|].
  change (((c - a) / 2 :: Np.central (b :: c :: t)).[S i])
    with ((Np.central (b :: c :: t)).[i]).
  rewrite IH by (simpl in *; lia).
  reflexivity.
Qed.

Lemma rev_head3 (y : list Q) :
  (3 <= length y)%nat ->
  exists t, rev y = y.[length y - 1] :: y.[length y - 2]
                      :: y.[length y - 3] :: t.
Proof.
  intro Hn.
  assert (Hl : length (rev y) = length y) by apply length_rev.
  destruct (rev y) as [|a [|b [|c t]]] eqn:E; try (simpl in Hl; lia).
  exists t.
  assert (Hnth : forall i, (i < length y)%nat ->
                           (rev y).[i] = y.[length y - S i]).
  { intros i Hi. apply rev_nth. exact Hi. }
  rewrite E in Hnth.
  pose proof (Hnth 0%nat ltac:(lia)) as H0.
  pose proof (Hnth 1%nat ltac:(lia)) as H1.
  pose proof (Hnth 2%nat ltac:(lia)) as H2.
  simpl in H0, H1, H2.
  replace (length y - 1)%nat with (length y - 1)%nat by reflexivity.
  rewrite <- H0, <- H1, <- H2. reflexivity.
Qed.

Lemma rev_head2 (y : list Q) :
  (2 <= length y)%nat ->
  exists t, rev y = y.[length y - 1] :: y.[length y - 2] :: t.
Proof.
  intro Hn.
  assert (Hl : length (rev y) = length y) by apply length_rev.
  destruct (rev y) as [|a [|b t]] eqn:E; try (simpl in Hl; lia).
  exists t.
  assert (Hnth : forall i, (i < length y)%nat ->
                           (rev y).[i] = y.[length y - S i]).
  { intros i Hi. apply rev_nth. exact Hi. }
  rewrite E in Hnth.
  pose proof (Hnth 0%nat ltac:(lia)) as H0.
  pose proof (Hnth 1%nat ltac:(lia)) as H1.
  simpl in H0, H1.
  rewrite <- H0, <- H1. reflexivity.
Qed.

(** With at least three samples and [edge_order = 2] the edges are the
    three-point one-sided differences. *)
Lemma differences_edge2 (y : list Q) :
  (3 <= length y)%nat ->
  Np.differences 2 y =
  Ok (Np.edge2_first y.[0] y.[1] y.[2]
        :: Np.central y
        ++ [Np.edge2_last y.[length y - 1] y.[length y - 2]
                          y.[length y - 3]]).
Proof.
  intro Hn. destruct (rev_head3 y Hn) as [t Ht].
  destruct y as [|y0 [|y1 [|y2 r]]]; try (simpl in Hn; lia).
  unfold Np.differences. rewrite Ht. reflexivity.
Qed.

(** With [edge_order = 1] the edges are the two-point differences. *)
Lemma differences_edge1 (y : list Q) :
  (2 <= length y)%nat ->
  Np.differences 1 y =
  Ok (Np.edge1 y.[0] y.[1]
        :: Np.central y
        ++ [Np.edge1 y.[length y - 2] y.[length y - 1]]).
Proof.
  intro Hn. destruct (rev_head2 y Hn) as [t Ht].
  destruct y as [|y0 [|y1 r]]; try (simpl in Hn; lia).
  unfold Np.differences. rewrite Ht.
  destruct r, t; reflexivity.
Qed.

Lemma differences_length (eo : nat) (y d : list Q) :
  Np.differences eo y = Ok d -> length d = length y.
Proof.
  unfold Np.differences.
  destruct y as [|y0 [|y1 r]]; try discriminate.
  destruct (rev (y0 :: y1 :: r)) as [|a [|b t]]; try discriminate.
  intro H.
  assert (Hd : exists e1 e2, d = e1 :: Np.central (y0 :: y1 :: r) ++ [e2]).
  { destruct r, t, (Nat.eqb eo 1); inversion H; subst;
      do 2 eexists; reflexivity. }
  destruct Hd as (e1 & e2 & ->).
  change (S (length (Np.central (y0 :: y1 :: r) ++ [e2]))
          = length (y0 :: y1 :: r)).
  rewrite length_app, central_length. simpl. lia.
Qed.

Lemma divide_elementwise_spec (out d : list Q) :
  length out = length d ->
  exists r, Np.divide_elementwise out d = Ok r
            /\ length r = length out
            /\ forall i, (i < length out)%nat -> r.[i] = out.[i] / d.[i].
Proof.
  revert d. induction out as [|o out IH]; intros [|h d] Hl;
    try (simpl in Hl; lia).
  - exists []. split; [reflexivity|]. split; [reflexivity|].
    intros i Hi. simpl in Hi. lia.
  - destruct (IH d ltac:(simpl in Hl; lia)) as (r & Hr & Hlen & Hnth).
    exists (o / h :: r). simpl. rewrite Hr. simpl.
    split; [reflexivity|]. split; [lia|].
    intros [|i] Hi; [reflexivity|]. apply Hnth. lia.
Qed.

Lemma divide_array_spec (out d : list Q) :
  length out = length d ->
  exists r, Np.divide out (Np.Array d) = Ok r
            /\ length r = length out
            /\ forall i, (i < length out)%nat -> r.[i] = out.[i] / d.[i].
Proof.
  intro Hl.
  destruct (divide_elementwise_spec out d Hl) as (r & Hr & Hlen & Hnth).
  unfold Np.divide.
  destruct d as [|h [|h' d]]; try (exists r; tauto).
  destruct out as [|o [|o' out]]; try (simpl in Hl; lia).
  exists [o / h]. repeat split. intros [|i] Hi; [reflexivity|].
  simpl in Hi. lia.
Qed.

Lemma nth_framed (a b : Q) (l : list Q) (i : nat) :
  (a :: l ++ [b]).[i] =
  if Nat.eqb i 0 then a
  else if Nat.leb i (length l) then l.[i - 1]
  else if Nat.eqb i (S (length l)) then b else 0.
Proof.
  destruct i as [|i]; [reflexivity|].
  change ((a :: l ++ [b]).[S i]) with ((l ++ [b]).[i]).
  replace (S i - 1)%nat with i by lia.
  destruct (Nat.leb_spec (S i) (length l)) as [H|H].
  - simpl. now rewrite app_nth1 by lia.
  - rewrite app_nth2 by lia.
    destruct (Nat.eqb_spec (S i) (S (length l))) as [E|E].
    + simpl. replace (i - length l)%nat with 0%nat by lia. reflexivity.
    + simpl. destruct (i - length l)%nat as [|[|k]] eqn:K;
        try reflexivity; lia.
Qed.

(** What [first_derivative] computes on at least three samples: the
    unit-step differences of [y] divided, sample by sample, by the
    unit-step differences of [x] (two-point at the edges of [x],
    three-point at the edges of [y]). *)
Lemma first_derivative_closed_form (x y : list Q) :
  length x = length y -> (3 <= length x)%nat ->
  exists d,
    first_derivative x y = Ok d
    /\ length d = length x
    /\ d.[0] == Np.edge2_first y.[0] y.[1] y.[2] / Np.edge1 x.[0] x.[1]
    /\ (forall i, (1 <= i)%nat -> (i + 1 < length x)%nat ->
         d.[i] == ((y.[i + 1] - y.[i - 1]) / 2)
                  / ((x.[i + 1] - x.[i - 1]) / 2))
    /\ d.[length x - 1] ==
         Np.edge2_last y.[length x - 1] y.[length x - 2] y.[length x - 3]
         / Np.edge1 x.[length x - 2] x.[length x - 1].
Proof.
  intros Hxy Hn.
  unfold first_derivative, Np.gradient.
  rewrite (differences_edge1 x) by lia. cbn [Py.bind Np.divide].
  rewrite (differences_edge2 y) by lia. cbn [Py.bind].
  set (gx := map (fun o => o / 1) _).
  set (dy := Np.edge2_first _ _ _ :: _).
  assert (Hgx : length gx = length x).
  { unfold gx. rewrite length_map. simpl. rewrite length_app, central_length.
    simpl. lia. }
  assert (Hdy : length dy = length x).
  { unfold dy. simpl. rewrite length_app, central_length. simpl. lia. }
  destruct (divide_array_spec dy gx ltac:(lia)) as (d & Hd & Hlen & Hnth).
  exists d. split; [exact Hd|]. split; [lia|].
  assert (Hgxi : forall i, (i < length x)%nat ->
             gx.[i] = (Np.edge1 x.[0] x.[1]
                         :: Np.central x
                         ++ [Np.edge1 x.[length x - 2] x.[length x - 1]]).[i]
                      / 1).
  { intros i Hi.
    assert (Hi' : (i < length gx)%nat) by lia.
    unfold gx in *.
    rewrite (nth_indep _ 0 ((fun o => o / 1) 0) Hi').
    rewrite (map_nth (fun o => o / 1)). reflexivity. }
  pose proof (central_length x) as Hcx.
  pose proof (central_length y) as Hcy.
  assert (Hone : forall q : Q, q / 1 == q) by (intro q; field).
  split; [|split].
  - rewrite Hnth by lia. rewrite Hgxi by lia. rewrite Hone.
    reflexivity.
  - intros i Hi1 Hi2.
    rewrite Hnth by lia. rewrite Hgxi by lia. rewrite Hone.
    unfold dy. rewrite !nth_framed.
    destruct (Nat.eqb_spec i 0) as [E|_]; [lia|].
    destruct (Nat.leb_spec i (length (Np.central y))) as [_|L]; [|lia].
    destruct (Nat.leb_spec i (length (Np.central x))) as [_|L]; [|lia].
    rewrite !central_nth by lia.
    replace (i - 1 + 2)%nat with (i + 1)%nat by lia.
    reflexivity.
  - rewrite Hnth by lia. rewrite Hgxi by lia. rewrite Hone.
    unfold dy. rewrite !nth_framed.
    destruct (Nat.eqb_spec (length x - 1) 0) as [E|_]; [lia|].
    destruct (Nat.leb_spec (length x - 1) (length (Np.central y)))
      as [L|_]; [lia|].
    destruct (Nat.leb_spec (length x - 1) (length (Np.central x)))
      as [L|_]; [lia|].
    destruct (Nat.eqb_spec (length x - 1) (S (length (Np.central y))))
      as [_|E]; [|lia].
    destruct (Nat.eqb_spec (length x - 1) (S (length (Np.central x))))
      as [_|E]; [|lia].
    rewrite <- Hxy. reflexivity.
Qed.


Lemma increasing_nth (x : list Q) (i j : nat) :
  StronglySorted Qlt x -> (i < j)%nat -> (j < length x)%nat ->
  x.[i] < x.[j].
Proof.
  intro Hs. revert i j. induction Hs as [|a l Hs IH Hall]; intros i j Hij Hj.
  - simpl in Hj. lia.
  - destruct j as [|j]; [lia|]. simpl in Hj.
    destruct i as [|i].
    + simpl. rewrite Forall_forall in Hall. apply Hall. apply nth_In. lia.
    + simpl. apply IH; lia.
Qed.




End GradientFacts.

(** C1 (fails on the code).  The claim: for every strictly increasing [x]
    of length at least three and [y = m * x + c], [first_derivative x y]
    is [m] at every index, the first and the last included, also when the
    spacing of [x] is not uniform.  On [x = [0; 1; 3]] and
    [y = 2 * x + 1 = [1; 3; 7]] the function returns [[1; 2; 5/2]]: the
    interior value is the slope [2], the first and the last are not.
    (With the [np.gradient] of NumPy 1.13 and later the same call returns
    [[2; 6; 10]], the derivative of [y] in [np.gradient(x)].) *)
Theorem first_derivative_linear_nonuniform :
  StronglySorted Qlt [0; 1; 3]
  /\ (exists d,
        first_derivative [0; 1; 3] (linear 2 1 [0; 1; 3]) = Ok d
        /\ Qlist_eq d [1; 2; 5 # 2]
        /\ ~ nth 0 d 0 == 2
        /\ nth 1 d 0 == 2
        /\ ~ nth 2 d 0 == 2)
  /\ (exists d,
        Np13.first_derivative [0; 1; 3] (linear 2 1 [0; 1; 3]) = Ok d
        /\ Qlist_eq d [2; 6; 10]
        /\ ~ nth 1 d 0 == 2
        /\ ~ nth 2 d 0 == 2).
Proof.
  split; [repeat constructor|]. split.
  - eexists. split; [vm_compute; reflexivity|].
    split; [repeat constructor|].
    split; [|split]; vm_compute; congruence.
  - eexists. split; [vm_compute; reflexivity|].
    split; [repeat constructor|].
    split; vm_compute; congruence.
Qed.

(** ** The integration loop *)

Lemma bind_Ok {A B : Type} (c : result A) (k : A -> result B) (b : B) :
  Py.bind c k = Ok b -> exists a, c = Ok a /\ k a = Ok b.
Proof.
  destruct c as [a|e]; simpl; [eauto|discriminate].
Qed.

Lemma bind_Raise {A B : Type} (c : result A) (k : A -> result B) (e : exn) :
  Py.bind c k = Raise e ->
  c = Raise e \/ exists a, c = Ok a /\ k a = Raise e.
Proof.
  destruct c as [a|e']; simpl; [eauto|].
  intros [= ->]. left. reflexivity.
Qed.

Lemma mapM_Raise {A B : Type} (f : A -> result B) (xs : list A) (e : exn) :
  mapM f xs = Raise e -> exists a, In a xs /\ f a = Raise e.
Proof.
  induction xs as [|a xs IH]; simpl; [discriminate|].
  intro H. apply bind_Raise in H. destruct H as [H|(b & Hb & H)].
  - exists a. auto.
  - apply bind_Raise in H. destruct H as [H|(bs & Hbs & H)]; [|discriminate].
    destruct (IH H) as (a' & Hin & Ha'). exists a'. auto.
Qed.

Lemma mapM_Ok_nth {A B : Type} (f : A -> result B) (g : A -> B)
      (xs : list A) :
  (forall a, In a xs -> f a = Ok (g a)) -> mapM f xs = Ok (map g xs).
Proof.
  induction xs as [|a xs IH]; intro H; [reflexivity|].
  simpl. rewrite (H a) by (left; reflexivity). simpl.
  rewrite IH by (intros a' Ha'; apply H; right; exact Ha'). reflexivity.
Qed.

(** Two-point interpolation strictly inside the interval. *)
Lemma interp_two_points (x t0 t1 v0 v1 : Q) :
  t0 <= x -> x < t1 ->
  Np.interp x [t0; t1] [v0; v1] None None
  = Ok ((v1 - v0) / (t1 - t0) * (x - t0) + v0).
Proof.
  intros H0 H1. unfold Np.interp. simpl.
  assert (E1 : Qltb t1 x = false) by (apply Qltb_ge; lra).
  assert (E0 : Qltb x t0 = false) by (apply Qltb_ge; lra).
  rewrite E1, E0. unfold Np.search. simpl.
  destruct (Qle_bool t1 x) eqn:E; [|reflexivity].
  apply Qle_bool_iff in E. lra.
Qed.

Lemma interp_two_points_lerp (x t0 t1 v0 v1 : Q) :
  t0 <= x -> x < t1 ->
  (v1 - v0) / (t1 - t0) * (x - t0) + v0 == lerp t0 v0 t1 v1 x.
Proof.
  intros H0 H1. unfold lerp. field. intro E. lra.
Qed.

Lemma interp_pair_ok (x t0 t1 v0 v1 : Q) :
  exists v, Np.interp x [t0; t1] [v0; v1] None None = Ok v.
Proof.
  unfold Np.interp. simpl.
  destruct (Qltb t1 x); [eauto|].
  destruct (Qltb x t0); [eauto|].
  destruct (Nat.eqb (Np.search x [t0; t1]) 1); eauto.
Qed.

Lemma getitem_Raise {A : Type} (xs : list A) (i : nat) (e : exn) :
  getitem xs i = Raise e -> e = IndexError.
Proof.
  unfold getitem. destruct (nth_error xs i); congruence.
Qed.

Lemma getitem_nth (xs : list Q) (i : nat) :
  (i < length xs)%nat -> getitem xs i = Ok (nth i xs 0).
Proof.
  intro Hi. unfold getitem.
  rewrite (nth_error_nth' xs 0 Hi). reflexivity.
Qed.

Section LoopFacts.

Variable reactor : Type.
Variable net_step : Q -> reactor -> reactor.
Variables net_time reac_T thermo_P reac_volume : reactor -> Q.
Variable reac_Y : reactor -> list Q.

Local Abbreviation interpolated_row' :=
  (interpolated_row reactor net_time reac_T thermo_P reac_volume reac_Y).
Local Abbreviation current_row' :=
  (current_row reactor net_time reac_T thermo_P reac_volume reac_Y).
Local Abbreviation save_previous' :=
  (save_previous reactor net_time reac_T thermo_P reac_volume reac_Y).
Local Abbreviation integrate' :=
  (integrate reactor net_step net_time reac_T thermo_P reac_volume reac_Y).
Local Abbreviation run_case' :=
  (run_case reactor net_step net_time reac_T thermo_P reac_volume reac_Y).

Lemma integrate_O (te : Q) (r : reactor) (prev : option previous)
      (table : list Table.row) :
  integrate' 0 te r prev table
  = if Qltb (net_time r) te then None else Some (Ok table).
Proof. reflexivity. Qed.

Lemma integrate_S (fuel : nat) (te : Q) (r : reactor)
      (prev : option previous) (table : list Table.row) :
  integrate' (S fuel) te r prev table
  = if Qltb (net_time r) te then
      match (if Qltb te (net_time (net_step te r))
             then interpolated_row' te prev (net_step te r)
             else Ok (current_row' (net_step te r))) with
      | Raise e => Some (Raise e)
      | Ok row =>
          integrate' fuel te (net_step te r)
                     (Some (save_previous' (net_step te r))) (table ++ [row])
      end
    else Some (Ok table).
Proof. reflexivity. Qed.

(** With the previous values bound, the interpolation branch can only
    fail on an index. *)
Lemma interpolated_row_Raise (te : Q) (p : previous) (r : reactor) (e : exn) :
  interpolated_row' te (Some p) r = Raise e -> e = IndexError.
Proof.
  unfold interpolated_row.
  destruct (interp_pair_ok te (prev_time p) (net_time r)
                           (prev_temp p) (reac_T r)) as [v1 ->].
  destruct (interp_pair_ok te (prev_time p) (net_time r)
                           (prev_pres p) (thermo_P r)) as [v2 ->].
  destruct (interp_pair_ok te (prev_time p) (net_time r)
                           (prev_vol p) (reac_volume r)) as [v3 ->].
  cbn [Py.bind]. intro H.
  apply bind_Raise in H. destruct H as [H|(ys & _ & H)]; [|discriminate].
  apply mapM_Raise in H. destruct H as (i & _ & H).
  apply bind_Raise in H. destruct H as [H|(a & _ & H)].
  { apply getitem_Raise in H. exact H. }
  apply bind_Raise in H. destruct H as [H|(b & _ & H)].
  { apply getitem_Raise in H. exact H. }
  destruct (interp_pair_ok te (prev_time p) (net_time r) a b) as [v E].
  rewrite E in H. discriminate.
Qed.

(** Once an iteration has completed, the loop never reads an unbound
    local. *)
Lemma integrate_bound_no_NameError (fuel : nat) (te : Q) :
  forall (r : reactor) (p : previous) (table : list Table.row),
    integrate' fuel te r (Some p) table <> Some (Raise NameError).
Proof.
  induction fuel as [|fuel IH]; intros r p table.
  - rewrite integrate_O. destruct (Qltb (net_time r) te); discriminate.
  - rewrite integrate_S.
    destruct (Qltb (net_time r) te); [|discriminate].
    destruct (Qltb te (net_time (net_step te r))).
    + destruct (interpolated_row' te (Some p) (net_step te r)) as [row|e] eqn:E.
      * apply IH.
      * apply interpolated_row_Raise in E. subst e. discriminate.
    + apply IH.
Qed.

(** The interpolated row: its time is the end time and every channel is
    the value at the end time of the line through the previous and the
    current state. *)
Lemma interpolated_row_spec (te : Q) (p : previous) (r : reactor) :
  prev_time p <= te -> te < net_time r ->
  length (prev_mass_frac p) = length (reac_Y r) ->
  exists row,
    interpolated_row' te (Some p) r = Ok row
    /\ Table.time row = te
    /\ Table.temperature row
       == lerp (prev_time p) (prev_temp p) (net_time r) (reac_T r) te
    /\ Table.pressure row
       == lerp (prev_time p) (prev_pres p) (net_time r) (thermo_P r) te
    /\ Table.volume row
       == lerp (prev_time p) (prev_vol p) (net_time r) (reac_volume r) te
    /\ length (Table.mass_fractions row) = length (reac_Y r)
    /\ forall i, (i < length (reac_Y r))%nat ->
         nth i (Table.mass_fractions row) 0
         == lerp (prev_time p) (nth i (prev_mass_frac p) 0)
                 (net_time r) (nth i (reac_Y r) 0) te.
Proof.
  intros H0 H1 Hlen.
  unfold interpolated_row.
  rewrite !interp_two_points by assumption. cbn [Py.bind].
  set (g := fun i =>
              (nth i (reac_Y r) 0 - nth i (prev_mass_frac p) 0)
              / (net_time r - prev_time p) * (te - prev_time p)
              + nth i (prev_mass_frac p) 0).
  rewrite (mapM_Ok_nth _ g).
  2:{ intros i Hi. apply in_seq in Hi.
      rewrite !getitem_nth by lia. cbn [Py.bind].
      rewrite interp_two_points by assumption. reflexivity. }
  cbn [Py.bind]. eexists. split; [reflexivity|]. cbn.
  split; [reflexivity|].
  split; [apply interp_two_points_lerp; assumption|].
  split; [apply interp_two_points_lerp; assumption|].
  split; [apply interp_two_points_lerp; assumption|].
  split; [now rewrite length_map, length_seq|].
  intros i Hi.
  rewrite (nth_indep _ 0 (g 0%nat)) by (now rewrite length_map, length_seq).
  rewrite map_nth. rewrite seq_nth by exact Hi. simpl.
  unfold g. apply interp_two_points_lerp; assumption.
Qed.

(** An overshooting step taken after a completed one appends the
    interpolated row and leaves the loop. *)
Lemma integrate_overshoot (fuel : nat) (te : Q) (r : reactor) (p : previous)
      (table : list Table.row) (row : Table.row) :
  net_time r < te -> te < net_time (net_step te r) ->
  interpolated_row' te (Some p) (net_step te r) = Ok row ->
  integrate' (S fuel) te r (Some p) table = Some (Ok (table ++ [row])).
Proof.
  intros H0 H1 Hrow. rewrite integrate_S.
  apply Qltb_lt in H0. rewrite H0.
  assert (E1 : Qltb te (net_time (net_step te r)) = true) by now apply Qltb_lt.
  rewrite E1, Hrow.
  assert (E2 : Qltb (net_time (net_step te r)) te = false)
    by (apply Qltb_ge; lra).
  destruct fuel; [rewrite integrate_O|rewrite integrate_S];
    rewrite E2; reflexivity.
Qed.

(** An overshooting first step reads [prev_time] before any assignment. *)
Lemma integrate_unbound (fuel : nat) (te : Q) (r : reactor)
      (table : list Table.row) :
  net_time r < te -> te < net_time (net_step te r) ->
  integrate' (S fuel) te r None table = Some (Raise NameError).
Proof.
  intros H0 H1. rewrite integrate_S.
  apply Qltb_lt in H0. apply Qltb_lt in H1. rewrite H0, H1. reflexivity.
Qed.

(** An advance from a recorded state [r] at or before the end time to a
    state past it appends the row interpolated between the two and ends
    the loop, provided an iteration has already completed (the previous
    values are those of [r]). *)
Lemma integrate_overshoot_interpolates (fuel : nat) (te : Q) (r : reactor)
      (table : list Table.row) :
  net_time r < te -> te < net_time (net_step te r) ->
  length (reac_Y r) = length (reac_Y (net_step te r)) ->
  exists row,
    integrate' (S fuel) te r (Some (save_previous' r)) table
    = Some (Ok (table ++ [row]))
    /\ Table.time row = te
    /\ Table.temperature row
       == lerp (net_time r) (reac_T r)
               (net_time (net_step te r)) (reac_T (net_step te r)) te
    /\ Table.pressure row
       == lerp (net_time r) (thermo_P r)
               (net_time (net_step te r)) (thermo_P (net_step te r)) te
    /\ Table.volume row
       == lerp (net_time r) (reac_volume r)
               (net_time (net_step te r)) (reac_volume (net_step te r)) te
    /\ length (Table.mass_fractions row) = length (reac_Y (net_step te r))
    /\ forall i, (i < length (reac_Y (net_step te r)))%nat ->
         nth i (Table.mass_fractions row) 0
         == lerp (net_time r) (nth i (reac_Y r) 0)
                 (net_time (net_step te r))
                 (nth i (reac_Y (net_step te r)) 0) te.
Proof.
  intros H0 H1 Hlen.
  destruct (interpolated_row_spec te (save_previous' r) (net_step te r))
    as (row & Hrow & Hspec).
  { simpl. lra. }
  { exact H1. }
  { exact Hlen. }
  exists row. split; [|exact Hspec].
  apply integrate_overshoot; assumption.
Qed.

(** C9.  [run_case] ends in [NameError] exactly when the loop is entered
    and its very first advance goes past the end time: the previous
    values are bound only at the end of a completed iteration, so the
    interpolation branch is defined only after one. *)
Theorem run_case_NameError_iff (fuel : nat) (self : Simulation) (te : Q)
        (r0 : reactor) :
  time_end self = Some te ->
  run_case' fuel self r0 = Some (Raise NameError)
  <-> ((0 < fuel)%nat
       /\ net_time r0 < te
       /\ te < net_time (net_step te r0)).
Proof.
  intro Hte. unfold run_case. rewrite Hte. split.
  - destruct fuel as [|fuel]; [rewrite integrate_O|rewrite integrate_S].
    + destruct (Qltb (net_time r0) te); discriminate.
    + destruct (Qltb (net_time r0) te) eqn:E0; [|discriminate].
      destruct (Qltb te (net_time (net_step te r0))) eqn:E1.
      * intros _. apply Qltb_lt in E0. apply Qltb_lt in E1.
        repeat split; [lia|assumption|assumption].
      * intro H. exfalso.
        exact (integrate_bound_no_NameError fuel te _ _ _ H).
  - intros (Hf & H0 & H1). destruct fuel as [|fuel]; [lia|].
    apply integrate_unbound; assumption.
Qed.

End LoopFacts.

Lemma run_case_NameError_iff_witness :
  time_end (Cases.shock_tube (Name "pressure") "d/dt max") = Some 100
  /\ Scripted.run_case 1 (Cases.shock_tube (Name "pressure") "d/dt max")
                       Cases.overshoot_at_once
     = Some (Raise NameError).
Proof.
  split; [reflexivity|].
  apply (run_case_NameError_iff
           Scripted.reactor Scripted.net_step Scripted.net_time
           Scripted.reac_T Scripted.thermo_P Scripted.reac_volume
           Scripted.reac_Y 1
           (Cases.shock_tube (Name "pressure") "d/dt max") 100
           Cases.overshoot_at_once).
  - reflexivity.
  - split; [lia|]. split; reflexivity.
Defined.

(** A run in which the overshoot comes second: the last row is at the end
    time and holds the interpolated channels. *)
Example run_case_overshoot_later :
  exists r0 r1 r2,
    Scripted.run_case 2 (Cases.shock_tube (Name "pressure") "d/dt max")
                      Cases.overshoot_later
    = Some (Ok [r0; r1; r2])
    /\ Table.time r2 = 100
    /\ Table.temperature r2 == 1200
    /\ Table.pressure r2 == 140
    /\ Table.volume r2 == 1
    /\ Qlist_eq (Table.mass_fractions r2) [1 # 2; 1 # 2].
Proof.
  do 3 eexists. split; [vm_compute; reflexivity|].
  cbn. repeat split; repeat constructor.
Qed.

(** C2 (fails on the code).  The claim: whenever an advance moves the time
    from a recorded time at or before the end time to a time past it, the
    final row holds the end time and the interpolated channels.  The
    initial state is recorded at time 0; when the first advance already
    goes to time 200 with the end time at 100, no row is appended: the run
    ends in [NameError], whatever the number of iterations allowed. *)
Theorem run_case_overshoot_at_once :
  let self := Cases.shock_tube (Name "pressure") "d/dt max" in
  let r0 := Cases.overshoot_at_once in
  Scripted.net_time r0 <= 100
  /\ 100 < Scripted.net_time (Scripted.net_step 100 r0)
  /\ Scripted.run_case 1 self r0 = Some (Raise NameError)
  /\ forall fuel table, Scripted.run_case fuel self r0 <> Some (Ok table).
Proof.
  cbv zeta. split; [vm_compute; discriminate|].
  split; [reflexivity|]. split; [reflexivity|].
  intros [|fuel] table; [discriminate|].
  vm_compute. discriminate.
Qed.

(** ** The ignition target *)

Section TargetFacts.

Variable species_index : string -> option nat.

Local Abbreviation lookup_first' := (lookup_first species_index).
Local Abbreviation setup_case' := (setup_case species_index).

(** The loop stops at the first candidate that the phase knows. *)
Lemma lookup_first_Some (tl : list string) (i : nat) :
  lookup_first' tl = Some i <->
  exists before sp after,
    tl = before ++ sp :: after
    /\ Forall (fun s => species_index s = None) before
    /\ species_index sp = Some i.
Proof.
  split.
  - induction tl as [|s tl IH]; simpl; [discriminate|].
    destruct (species_index s) as [k|] eqn:E.
    + intros [= <-]. exists [], s, tl. repeat split; auto.
    + intro H. destruct (IH H) as (b & sp & a & -> & Hb & Hsp).
      exists (s :: b), sp, a. repeat split; auto.
  - intros (b & sp & a & -> & Hb & Hsp).
    induction Hb as [|s b Hs Hb IH]; simpl.
    + now rewrite Hsp.
    + now rewrite Hs.
Qed.

Lemma lookup_first_None (tl : list string) :
  lookup_first' tl = None <-> Forall (fun s => species_index s = None) tl.
Proof.
  induction tl as [|s tl IH]; simpl.
  - split; auto.
  - destruct (species_index s) as [k|] eqn:E.
    + split; [discriminate|]. intro H. inversion H; congruence.
    + rewrite IH. split; [auto|]. intro H. now inversion H.
Qed.

(** The candidates: the name, its lower case and, for a name that ends in
    a star, the name without the star and its lower case. *)
Lemma try_list_cases (spec : string) (c : ascii) :
  last_char spec = Ok c ->
  try_list spec
  = Ok (if Ascii.eqb c "*"
        then [spec; lower spec; drop_last spec; lower (drop_last spec)]
        else [spec; lower spec]).
Proof.
  intro H. unfold try_list. rewrite H. simpl.
  destruct (Ascii.eqb c "*"); reflexivity.
Qed.

Definition is_species (spec : string) : bool :=
  negb (String.eqb spec "pressure" || String.eqb spec "temperature").

(** A first match at a positive index becomes the target; nothing is
    printed and the ignition type is kept. *)
Lemma setup_case_found (self : Simulation) (spec : string)
      (tl : list string) (i : nat) :
  ignition_target self = Name spec -> is_species spec = true ->
  try_list spec = Ok tl -> lookup_first' tl = Some (S i) ->
  setup_case' self
  = Ok (with_target self (Some (100 * ignition_delay (props self)))
                    (Index (S i)) (ignition_type self), []).
Proof.
  intros Ht Hs Htl Hl. unfold setup_case. rewrite Ht.
  unfold is_species in Hs. apply negb_true_iff in Hs. rewrite Hs.
  rewrite Htl. cbn [Py.bind]. rewrite Hl. reflexivity.
Qed.

(** No match: the warning is printed and the target becomes the pressure
    with the type ['d/dt max']. *)
Lemma setup_case_not_found (self : Simulation) (spec : string)
      (tl : list string) :
  ignition_target self = Name spec -> is_species spec = true ->
  try_list spec = Ok tl -> lookup_first' tl = None ->
  setup_case' self
  = Ok (with_target self (Some (100 * ignition_delay (props self)))
                    (Name "pressure") "d/dt max", [warning spec]).
Proof.
  intros Ht Hs Htl Hl. unfold setup_case. rewrite Ht.
  unfold is_species in Hs. apply negb_true_iff in Hs. rewrite Hs.
  rewrite Htl. cbn [Py.bind]. rewrite Hl. reflexivity.
Qed.


End TargetFacts.


(** An excited radical that the phase only has in its ground state, at a
    positive index: the ground state becomes the target. *)
Example setup_case_excited_radical :
  let self := Cases.shock_tube (Name "OH*") "max" in
  try_list "OH*" = Ok ["OH*"; "oh*"; "OH"; "oh"]%string
  /\ setup_case (index_of ["H2"; "O2"; "OH"]%string) self
     = Ok (with_target self (Some 100) (Index 2) "max", []).
Proof.
  split; reflexivity.
Qed.

(** C5 (fails on the code).  The claim: the first successful lookup fixes
    the index of the species as the target and the fallback on the
    pressure happens only when no candidate matches; in particular
    ["OH*"] resolves to the index of ["OH"] when only ["OH"] exists.
    In a phase whose first species is ["OH"] the third candidate is found,
    at index 0, and the target is nevertheless replaced by the pressure,
    with the warning and the type ['d/dt max']. *)
Theorem setup_case_excited_radical_first_species :
  let self := Cases.shock_tube (Name "OH*") "max" in
  let species_index := index_of ["OH"; "H2"; "O2"]%string in
  try_list "OH*" = Ok ["OH*"; "oh*"; "OH"; "oh"]%string
  /\ species_index "OH*"%string = None
  /\ species_index "oh*"%string = None
  /\ species_index "OH"%string = Some 0%nat
  /\ lookup_first species_index ["OH*"; "oh*"; "OH"; "oh"]%string
     = Some 0%nat
  /\ setup_case species_index self
     = Ok (with_target self (Some 100) (Name "pressure") "d/dt max",
           [warning "OH*"]).
Proof.
  cbv zeta. repeat split; reflexivity.
Qed.

(** ** Index arrays *)

Lemma take_in_range (a : list Q) (idx : list nat) :
  Forall (fun i => (i < length a)%nat) idx ->
  Np.take a idx = Ok (map (fun i => nth i a 0) idx).
Proof.
  intro H. unfold Np.take. apply mapM_Ok_nth.
  intros i Hi. rewrite Forall_forall in H.
  apply getitem_nth. apply H. exact Hi.
Qed.

Lemma take_nat_in_range (a : list nat) (idx : list nat) :
  Forall (fun i => (i < length a)%nat) idx ->
  Np.take a idx = Ok (map (fun i => nth i a 0%nat) idx).
Proof.
  intro H. unfold Np.take. apply mapM_Ok_nth.
  intros i Hi. rewrite Forall_forall in H.
  unfold getitem. rewrite (nth_error_nth' a 0%nat (H i Hi)). reflexivity.
Qed.

(** The positions returned by [np.where] are in range and select, in
    order, the elements that satisfy the test. *)
Lemma where_from_bound (k : nat) (mask : list bool) :
  Forall (fun i => (k <= i < k + length mask)%nat) (Np.where_from k mask).
Proof.
  revert k. induction mask as [|b mask IH]; intro k; simpl; [constructor|].
  assert (H : Forall (fun i => (k <= i < k + S (length mask))%nat)
                     (Np.where_from (S k) mask)).
  { eapply Forall_impl; [|apply IH]. simpl. intros i Hi. lia. }
  destruct b; [constructor; [lia|exact H]|exact H].
Qed.

Lemma where_from_select {A : Type} (f : A -> bool) (d : A) (k : nat)
      (l : list A) :
  map (fun i => nth (i - k) l d) (Np.where_from k (map f l)) = filter f l.
Proof.
  revert k. induction l as [|a l IH]; intro k; simpl; [reflexivity|].
  assert (H : map (fun i => nth (i - k) (a :: l) d)
                  (Np.where_from (S k) (map f l))
              = filter f l).
  { rewrite <- (IH (S k)). apply map_ext_in.
    intros i Hi.
    pose proof (where_from_bound (S k) (map f l)) as Hb.
    rewrite Forall_forall in Hb. specialize (Hb i Hi).
    replace (i - k)%nat with (S (i - S k)) by lia. reflexivity. }
  destruct (f a); simpl.
  - rewrite Nat.sub_diag. f_equal. exact H.
  - exact H.
Qed.

Lemma where_select {A : Type} (f : A -> bool) (d : A) (l : list A) :
  map (fun i => nth i l d) (Np.where_ (map f l)) = filter f l.
Proof.
  rewrite <- (where_from_select f d 0 l). unfold Np.where_.
  apply map_ext. intro i. now rewrite Nat.sub_0_r.
Qed.

Lemma where_bound (mask : list bool) :
  Forall (fun i => (i < length mask)%nat) (Np.where_ mask).
Proof.
  eapply Forall_impl; [|apply (where_from_bound 0 mask)].
  simpl. intros i Hi. lia.
Qed.

(** In an ordered index array the elements up to a bound form a prefix. *)
Lemma filter_above (m : nat) (l : list nat) :
  Forall (fun p => (m < p)%nat) l -> filter (fun p => Nat.leb p m) l = [].
Proof.
  induction 1 as [|a l Ha _ IH]; simpl; [reflexivity|].
  destruct (Nat.leb_spec a m); [lia|exact IH].
Qed.

Lemma sorted_filter_prefix (m : nat) (l : list nat) :
  StronglySorted Nat.le l ->
  exists rest,
    l = filter (fun p => Nat.leb p m) l ++ rest
    /\ Forall (fun p => (m < p)%nat) rest.
Proof.
  induction 1 as [|a l Hs IH Ha]; simpl.
  - exists []. split; [reflexivity|constructor].
  - destruct (Nat.leb_spec a m) as [Hle|Hgt].
    + destruct IH as (rest & Hl & Hrest).
      exists rest. split; [|exact Hrest]. simpl. now rewrite <- Hl.
    + assert (Hall : Forall (fun p => (m < p)%nat) l).
      { eapply Forall_impl; [|exact Ha]. simpl. intros p Hp. lia. }
      rewrite (filter_above m l Hall).
      exists (a :: l). split; [reflexivity|]. constructor; [lia|exact Hall].
Qed.

Lemma filter_filter {A : Type} (f g : A -> bool) (l : list A) :
  filter f (filter g l) = filter (fun a => (g a && f a)%bool) l.
Proof.
  induction l as [|a l IH]; simpl; [reflexivity|].
  destruct (g a); simpl; [destruct (f a)|]; now rewrite IH.
Qed.

(** [np.argmax] returns a position of a largest element. *)
Lemma argmax_from_spec (a : list Q) :
  forall (best : Q) (besti i : nat) (pre : list Q),
    length pre = i -> (besti < i)%nat ->
    nth besti pre 0 = best ->
    (forall j, (j < i)%nat -> nth j pre 0 <= best) ->
    let k := Np.argmax_from best besti i a in
    (k < length (pre ++ a))%nat
    /\ forall j, (j < length (pre ++ a))%nat ->
                 nth j (pre ++ a) 0 <= nth k (pre ++ a) 0.
Proof.
  induction a as [|v a IH]; intros best besti i pre Hlen Hb Hbest Hmax; simpl.
  - rewrite app_nil_r. split; [lia|].
    intros j Hj. rewrite Hbest. apply Hmax. lia.
  - replace (pre ++ v :: a) with ((pre ++ [v]) ++ a)
      by (rewrite <- app_assoc; reflexivity).
    destruct (Qltb best v) eqn:E.
    + apply Qltb_lt in E. apply IH.
      * rewrite length_app. simpl. lia.
      * lia.
      * rewrite app_nth2 by lia.
        replace (i - length pre)%nat with 0%nat by lia. reflexivity.
      * intros j Hj. destruct (Nat.eq_dec j i) as [->|Hne].
        -- rewrite app_nth2 by lia.
           replace (i - length pre)%nat with 0%nat by lia. simpl. lra.
        -- rewrite app_nth1 by lia.
           specialize (Hmax j ltac:(lia)). lra.
    + apply Qltb_ge in E. apply IH.
      * rewrite length_app. simpl. lia.
      * lia.
      * rewrite app_nth1 by lia. exact Hbest.
      * intros j Hj. destruct (Nat.eq_dec j i) as [->|Hne].
        -- rewrite app_nth2 by lia.
           replace (i - length pre)%nat with 0%nat by lia. simpl. exact E.
        -- rewrite app_nth1 by lia. apply Hmax. lia.
Qed.

Lemma argmax_spec (a : list Q) :
  a <> [] ->
  exists k,
    Np.argmax a = Ok k
    /\ (k < length a)%nat
    /\ forall j, (j < length a)%nat -> nth j a 0 <= nth k a 0.
Proof.
  destruct a as [|v a]; [congruence|]. intros _.
  exists (Np.argmax_from v 0 1 a). split; [reflexivity|].
  apply (argmax_from_spec a v 0%nat 1%nat [v]); try reflexivity; try lia.
  intros j Hj. replace j with 0%nat by lia. simpl. lra.
Qed.

(** ** The analyser *)

Section AnalysisFacts.

Variable detect_peaks : list Q -> list nat.

Local Abbreviation find_peaks' := (find_peaks detect_peaks).
Local Abbreviation process_results' := (process_results detect_peaks).

(** With no peak, [np.argmax] receives an empty array. *)
Lemma select_delays_no_peaks (self : Simulation) (time target : list Q) :
  select_delays self time target [] = Raise ValueError.
Proof. reflexivity. Qed.

Lemma process_results_unfold (self : Simulation) (table : list Table.row)
      (target target' : list Q) (ind : list nat) :
  channel self table = Ok target ->
  find_peaks' self (map Table.time table) target = Ok (target', ind) ->
  process_results' self table
  = (d <- select_delays self (map Table.time table) target' ind ;;
     Ok (store_delays self d)).
Proof.
  intros Hc Hf. unfold process_results. rewrite Hc. cbn [Py.bind].
  rewrite Hf. reflexivity.
Qed.

(** Whatever the detector, a series on which it finds no peak, after the
    fallback, makes [process_results] raise. *)
Lemma process_results_no_peaks (self : Simulation) (table : list Table.row)
      (target target' : list Q) :
  channel self table = Ok target ->
  find_peaks' self (map Table.time table) target = Ok (target', []) ->
  process_results' self table = Raise ValueError.
Proof.
  intros Hc Hf. rewrite (process_results_unfold self table target target' [] Hc Hf).
  reflexivity.
Qed.

Lemma length_zero_nil {A : Type} (l : list A) :
  Nat.eqb (length l) 0 = true <-> l = [].
Proof.
  destruct l; simpl; split; congruence.
Qed.

(** C4.  With the type ['max'], an empty first detection replaces the
    channel by its derivative in time and detects again on the
    derivative; with the type ['d/dt max'] the channel is differentiated
    once, before the only detection, and an empty detection is final. *)
Theorem find_peaks_fallback (self : Simulation) (time target d : list Q) :
  first_derivative time target = Ok d ->
  (ignition_type self = "max"%string -> detect_peaks target = [] ->
   find_peaks' self time target = Ok (d, detect_peaks d))
  /\ (ignition_type self = "max"%string -> detect_peaks target <> [] ->
      find_peaks' self time target = Ok (target, detect_peaks target))
  /\ (ignition_type self = "d/dt max"%string ->
      find_peaks' self time target = Ok (d, detect_peaks d)).
Proof.
  intro Hd. unfold find_peaks. repeat split.
  - intros Hty Hnil. rewrite Hty. cbn [String.eqb Ascii.eqb Bool.eqb Py.bind].
    rewrite Hnil. cbn [length Nat.eqb andb]. rewrite Hd. reflexivity.
  - intros Hty Hne. rewrite Hty. cbn [String.eqb Ascii.eqb Bool.eqb Py.bind].
    destruct (Nat.eqb (length (detect_peaks target)) 0) eqn:E.
    + apply length_zero_nil in E. contradiction.
    + reflexivity.
  - intros Hty. rewrite Hty. cbn [String.eqb Ascii.eqb Bool.eqb].
    rewrite Hd. cbn [Py.bind]. rewrite andb_false_r. reflexivity.
Qed.

End AnalysisFacts.

Lemma find_peaks_fallback_witness :
  let self := Cases.shock_tube (Name "pressure") "max" in
  let time := map Table.time Cases.rising_front in
  let target := map Table.pressure Cases.rising_front in
  exists d,
    first_derivative time target = Ok d
    /\ DetectPeaks.detect_peaks target = []
    /\ find_peaks DetectPeaks.detect_peaks self time target
       = Ok (d, DetectPeaks.detect_peaks d)
    /\ DetectPeaks.detect_peaks d = [1%nat].
Proof.
  cbv zeta. eexists.
  split; [vm_compute; reflexivity|].
  split; [reflexivity|].
  split; [|reflexivity].
  refine (proj1 (find_peaks_fallback DetectPeaks.detect_peaks _ _ _ _ _) _ _);
    [vm_compute; reflexivity|reflexivity|reflexivity].
Defined.

(** C3 (fails on the code).  The claim: when the detector finds no peak,
    after the fallback, [process_results] reports 0 s and NaN and raises
    nothing.  On a pressure that rises at a constant rate neither the
    channel nor its derivative has a peak, and [process_results] raises
    [ValueError], with the type ['max'] as with ['d/dt max']. *)
Theorem process_results_monotone :
  let time := map Table.time Cases.monotone in
  let target := map Table.pressure Cases.monotone in
  DetectPeaks.detect_peaks target = []
  /\ (exists d, first_derivative time target = Ok d
                /\ DetectPeaks.detect_peaks d = [])
  /\ process_results DetectPeaks.detect_peaks
                     (Cases.shock_tube (Name "pressure") "max")
                     Cases.monotone
     = Raise ValueError
  /\ process_results DetectPeaks.detect_peaks
                     (Cases.shock_tube (Name "pressure") "d/dt max")
                     Cases.monotone
     = Raise ValueError.
Proof.
  cbv zeta. split; [reflexivity|].
  split; [eexists; split; [vm_compute; reflexivity|reflexivity]|].
  split; vm_compute; reflexivity.
Qed.

(** *** The delay selection *)

Lemma strictly_sorted_le (l : list nat) :
  StronglySorted lt l -> StronglySorted Nat.le l.
Proof.
  induction 1 as [|a l Hs IH Ha]; constructor; [exact IH|].
  eapply Forall_impl; [|exact Ha]. simpl. intros p Hp. lia.
Qed.

Lemma Forall_filter {A : Type} (P : A -> Prop) (f : A -> bool) (l : list A) :
  Forall P l -> Forall P (filter f l).
Proof.
  intro H. rewrite Forall_forall in *. intros a Ha.
  apply filter_In in Ha. apply H. tauto.
Qed.

(** The index expression of lines 461-463 on an ordered array of peaks. *)
Lemma ignition_delays_sorted (time : list Q) (ind : list nat) (max_ind : nat)
      (time_comp : Q) :
  StronglySorted Nat.le ind ->
  Forall (fun p => (p < length time)%nat) ind ->
  ignition_delays time ind max_ind time_comp
  = Ok (Spec.candidate_delays time ind max_ind time_comp).
Proof.
  intros Hs Hr. unfold ignition_delays.
  set (upto := filter (fun p => Nat.leb p max_ind) ind).
  assert (Hupto : Forall (fun p => (p < length time)%nat) upto)
    by (apply Forall_filter; exact Hr).
  rewrite (take_in_range time upto Hupto). cbn [Py.bind].
  rewrite map_map.
  set (test := fun p => Qltb 0 (nth p time 0 - time_comp)).
  change (map (fun x => Qltb 0 (nth x time 0 - time_comp)) upto)
    with (map test upto).
  destruct (sorted_filter_prefix max_ind ind Hs) as (rest & Hind & _).
  fold upto in Hind.
  assert (Hpos : Forall (fun i => (i < length upto)%nat)
                        (Np.where_ (map test upto))).
  { pose proof (where_bound (map test upto)) as H.
    now rewrite length_map in H. }
  assert (Hlen : (length upto <= length ind)%nat).
  { assert (H : length ind = length (upto ++ rest)) by (f_equal; exact Hind).
    rewrite length_app in H. lia. }
  rewrite take_nat_in_range
    by (eapply Forall_impl; [|exact Hpos]; simpl; intros; lia).
  cbn [Py.bind].
  assert (Hsel : map (fun i => nth i ind 0%nat) (Np.where_ (map test upto))
                 = filter test upto).
  { rewrite <- (where_select test 0%nat upto).
    apply map_ext_in. intros i Hi.
    rewrite Forall_forall in Hpos. specialize (Hpos i Hi).
    transitivity (nth i (upto ++ rest) 0%nat);
      [f_equal; exact Hind|apply app_nth1; exact Hpos]. }
  rewrite Hsel.
  rewrite take_in_range by (apply Forall_filter; exact Hupto).
  cbn [Py.bind]. rewrite map_map.
  unfold Spec.candidate_delays, upto. rewrite filter_filter. reflexivity.
Qed.

Lemma overall_delay_code (c : list Q) :
  (if Nat.ltb 0 (length c) then Seconds (last c 0) else Seconds 0)
  = Spec.overall_delay c.
Proof. destruct c; reflexivity. Qed.

Lemma first_stage_delay_code (c : list Q) :
  (if Nat.ltb 1 (length c) then Seconds (hd 0 c) else NaN_seconds)
  = Spec.first_stage_delay c.
Proof. destruct c as [|a [|b c]]; reflexivity. Qed.

(** Lines 450-474 on a non-empty ordered array of peaks. *)
Lemma select_delays_sorted (self : Simulation) (time target : list Q)
      (ind : list nat) :
  length target = length time ->
  ind <> [] ->
  StronglySorted lt ind ->
  Forall (fun p => (p < length time)%nat) ind ->
  exists max_peak,
    In max_peak ind
    /\ (forall p, In p ind -> nth p target 0 <= nth max_peak target 0)
    /\ let tc := match compression_time (props self) with
                 | Some tc => tc
                 | None => 0
                 end in
       let candidates := Spec.candidate_delays time ind max_peak tc in
       select_delays self time target ind
       = Ok (Spec.overall_delay candidates, Spec.first_stage_delay candidates).
Proof.
  intros Hlen Hne Hs Hr.
  assert (Hr' : Forall (fun p => (p < length target)%nat) ind)
    by (now rewrite Hlen).
  set (pv := map (fun i => nth i target 0) ind).
  assert (Hpv : pv <> []).
  { unfold pv. destruct ind; [congruence|discriminate]. }
  destruct (argmax_spec pv Hpv) as (k & Hk & Hkl & Hmax).
  assert (Hkl' : (k < length ind)%nat) by (unfold pv in Hkl; now rewrite length_map in Hkl).
  assert (Hnth : forall j, (j < length ind)%nat ->
                           nth j pv 0 = nth (nth j ind 0%nat) target 0).
  { intros j Hj. unfold pv.
    rewrite (nth_indep _ 0 ((fun i => nth i target 0) 0%nat))
      by (now rewrite length_map).
    apply (map_nth (fun i => nth i target 0)). }
  exists (nth k ind 0%nat).
  split; [apply nth_In; exact Hkl'|].
  split.
  - intros p Hp. destruct (In_nth ind p 0%nat Hp) as (j & Hj & <-).
    rewrite <- !Hnth by assumption. apply Hmax.
    unfold pv. now rewrite length_map.
  - cbv zeta. unfold select_delays.
    rewrite (take_in_range target ind Hr'). fold pv. cbn [Py.bind].
    rewrite Hk. cbn [Py.bind].
    unfold getitem. rewrite (nth_error_nth' ind 0%nat Hkl'). cbn [Py.bind].
    rewrite (ignition_delays_sorted time ind _ _ (strictly_sorted_le ind Hs) Hr).
    cbn [Py.bind].
    rewrite overall_delay_code, first_stage_delay_code. reflexivity.
Qed.

(** The candidates come in increasing order when the recorded times
    increase. *)
Lemma candidate_delays_increasing (time : list Q) (ind : list nat)
      (max_peak : nat) (tc : Q) :
  StronglySorted Qlt time ->
  StronglySorted lt ind ->
  Forall (fun p => (p < length time)%nat) ind ->
  StronglySorted Qlt (Spec.candidate_delays time ind max_peak tc).
Proof.
  intros Ht Hs Hr. unfold Spec.candidate_delays.
  set (f := fun p => (Nat.leb p max_peak && Qltb 0 (nth p time 0 - tc))%bool).
  induction Hs as [|a l Hs IH Ha]; simpl; [constructor|].
  inversion Hr as [|? ? Hra Hrl]; subst.
  destruct (f a); [|apply IH; exact Hrl].
  simpl. constructor; [apply IH; exact Hrl|].
  rewrite Forall_forall. intros q Hq.
  apply in_map_iff in Hq. destruct Hq as (p & <- & Hp).
  apply filter_In in Hp. destruct Hp as [Hp _].
  rewrite Forall_forall in Ha, Hrl.
  pose proof (increasing_nth time a p Ht (Ha p Hp) (Hrl p Hp)) as Hlt.
  lra.
Qed.

Lemma mapM_length {A B : Type} (f : A -> result B) (xs : list A)
      (ys : list B) :
  mapM f xs = Ok ys -> length ys = length xs.
Proof.
  revert ys. induction xs as [|a xs IH]; simpl; intros ys H.
  - injection H as <-. reflexivity.
  - apply bind_Ok in H. destruct H as (b & _ & H).
    apply bind_Ok in H. destruct H as (bs & Hbs & H).
    injection H as <-. simpl. f_equal. apply IH. exact Hbs.
Qed.

Lemma channel_length (self : Simulation) (table : list Table.row)
      (target : list Q) :
  channel self table = Ok target -> length target = length table.
Proof.
  unfold channel, mass_fraction_column.
  destruct (ignition_target self) as [s|k].
  - destruct (String.eqb s "pressure");
      [|destruct (String.eqb s "temperature")];
      intro H; try discriminate; injection H as <-; apply length_map.
  - apply mapM_length.
Qed.

Lemma divide_elementwise_length (out d r : list Q) :
  Np.divide_elementwise out d = Ok r -> length r = length out.
Proof.
  revert d r. induction out as [|o out IH]; intros [|h d] r H;
    simpl in H; try discriminate.
  - injection H as <-. reflexivity.
  - apply bind_Ok in H. destruct H as (r' & Hr' & H).
    injection H as <-. simpl. f_equal. eapply IH. exact Hr'.
Qed.

Lemma gradient_length (y : list Q) (dx : Np.spacing) (eo : nat) (d : list Q) :
  Np.gradient y dx eo = Ok d -> length d = length y.
Proof.
  unfold Np.gradient. intro H.
  apply bind_Ok in H. destruct H as (out & Hout & H).
  apply differences_length in Hout. rewrite <- Hout.
  destruct dx as [h|[|h [|h' dx]]]; simpl in H.
  - injection H as <-. apply length_map.
  - apply divide_elementwise_length in H. exact H.
  - injection H as <-. apply length_map.
  - apply (divide_elementwise_length out (h :: h' :: dx)). exact H.
Qed.

Lemma first_derivative_length (x y d : list Q) :
  first_derivative x y = Ok d -> length d = length y.
Proof.
  unfold first_derivative. intro H.
  apply bind_Ok in H. destruct H as (gx & _ & H).
  apply gradient_length in H. exact H.
Qed.

Section DelayFacts.

Variable detect_peaks : list Q -> list nat.

Lemma find_peaks_length (self : Simulation) (time target target' : list Q)
      (ind : list nat) :
  find_peaks detect_peaks self time target = Ok (target', ind) ->
  length target' = length target.
Proof.
  unfold find_peaks. intro H.
  apply bind_Ok in H. destruct H as (t1 & Ht1 & H).
  assert (Hl1 : length t1 = length target).
  { destruct (String.eqb (ignition_type self) "d/dt max").
    - apply first_derivative_length in Ht1. exact Ht1.
    - injection Ht1 as <-. reflexivity. }
  destruct (Nat.eqb (length (detect_peaks t1)) 0
            && String.eqb (ignition_type self) "max")%bool.
  - apply bind_Ok in H. destruct H as (t2 & Ht2 & H).
    injection H as <- _. apply first_derivative_length in Ht2. congruence.
  - injection H as <- _. exact Hl1.
Qed.

(** C6.  On the channel [target'] and the ordered, non-empty array [ind]
    of its peaks that [find_peaks] returns, [process_results] returns and
    the delays it has stored under ['simulated ignition delay'] and
    ['simulated first-stage delay'] are those of the specification: with
    [max_peak] a peak of largest channel value and the compression time
    (0 without one), the array computed by lines 461-463 holds the
    candidates, the [time[p] - compression_time] of the peaks
    [p <= max_peak] for which this is positive, in the order of the
    peaks, which is the order of increasing time; the stored overall
    delay is the last candidate, or 0 s without candidates, and the
    stored first-stage delay is the first candidate when there are two,
    or NaN.  Nothing else of the object changes. *)
Theorem process_results_delays (self : Simulation) (table : list Table.row)
        (target target' : list Q) (ind : list nat) :
  channel self table = Ok target ->
  find_peaks detect_peaks self (map Table.time table) target
  = Ok (target', ind) ->
  ind <> [] ->
  StronglySorted lt ind ->
  Forall (fun p => (p < length table)%nat) ind ->
  exists max_peak,
    In max_peak ind
    /\ (forall p, In p ind -> nth p target' 0 <= nth max_peak target' 0)
    /\ let time := map Table.time table in
       let tc := match compression_time (props self) with
                 | Some tc => tc
                 | None => 0
                 end in
       let candidates := Spec.candidate_delays time ind max_peak tc in
       ignition_delays time ind max_peak tc = Ok candidates
       /\ (exists s,
              process_results detect_peaks self table = Ok s
              /\ simulated_ignition_delay (props s)
                 = Some (Spec.overall_delay candidates)
              /\ simulated_first_stage_delay (props s)
                 = Some (Spec.first_stage_delay candidates)
              /\ ignition_delay (props s) = ignition_delay (props self)
              /\ compression_time (props s) = compression_time (props self)
              /\ kind s = kind self
              /\ ignition_target s = ignition_target self
              /\ ignition_type s = ignition_type self
              /\ time_end s = time_end self)
       /\ (StronglySorted Qlt time -> StronglySorted Qlt candidates).
Proof.
  intros Hc Hf Hne Hs Hr.
  assert (Hlen : length target' = length (map Table.time table)).
  { rewrite (find_peaks_length _ _ _ _ _ Hf), (channel_length _ _ _ Hc).
    now rewrite length_map. }
  assert (Hr' : Forall (fun p => (p < length (map Table.time table))%nat) ind)
    by (now rewrite length_map).
  destruct (select_delays_sorted self (map Table.time table) target' ind
                                 Hlen Hne Hs Hr')
    as (max_peak & Hin & Hmax & Hsel).
  exists max_peak. split; [exact Hin|]. split; [exact Hmax|].
  cbv zeta in *. split; [|split].
  - apply ignition_delays_sorted; [apply strictly_sorted_le; exact Hs|exact Hr'].
  - eexists. split.
    + rewrite (process_results_unfold detect_peaks self table target target' ind
                                      Hc Hf).
      rewrite Hsel. cbn [Py.bind]. reflexivity.
    + cbn [store_delays props simulated_ignition_delay
           simulated_first_stage_delay ignition_delay compression_time
           kind ignition_target ignition_type time_end fst snd].
      repeat split.
  - intro Ht. apply candidate_delays_increasing; assumption.
Qed.

End DelayFacts.

Lemma process_results_delays_witness :
  let self := Cases.rcm (Name "pressure") "max" in
  let target := map Table.pressure Cases.three_peaks in
  let time := map Table.time Cases.three_peaks in
  channel self Cases.three_peaks = Ok target
  /\ find_peaks DetectPeaks.detect_peaks self time target
     = Ok (target, [1; 3; 5]%nat)
  /\ exists max_peak,
       In max_peak [1; 3; 5]%nat
       /\ (forall p, In p [1; 3; 5]%nat ->
                     nth p target 0 <= nth max_peak target 0)
       /\ let candidates := Spec.candidate_delays time [1; 3; 5]%nat max_peak 1 in
          ignition_delays time [1; 3; 5]%nat max_peak 1 = Ok candidates
          /\ exists s,
               process_results DetectPeaks.detect_peaks self Cases.three_peaks
               = Ok s
               /\ simulated_ignition_delay (props s)
                  = Some (Spec.overall_delay candidates)
               /\ simulated_first_stage_delay (props s)
                  = Some (Spec.first_stage_delay candidates).
Proof.
  cbv zeta.
  split; [reflexivity|]. split; [reflexivity|].
  destruct (process_results_delays DetectPeaks.detect_peaks
              (Cases.rcm (Name "pressure") "max") Cases.three_peaks
              (map Table.pressure Cases.three_peaks)
              (map Table.pressure Cases.three_peaks) [1; 3; 5]%nat)
    as (max_peak & Hin & Hmax & Hcand & (s & Hs & Ho & Hf & _) & _).
  - reflexivity.
  - reflexivity.
  - discriminate.
  - repeat constructor.
  - repeat constructor.
  - exists max_peak. split; [exact Hin|]. split; [exact Hmax|].
    split; [exact Hcand|]. exists s. repeat split; assumption.
Defined.

(** Two peaks before the largest one: both delays are reported. *)
Example process_results_two_stage :
  exists s overall first_stage,
    process_results DetectPeaks.detect_peaks
                    (Cases.shock_tube (Name "pressure") "max")
                    Cases.three_peaks = Ok s
    /\ simulated_ignition_delay (props s) = Some (Seconds overall)
    /\ simulated_first_stage_delay (props s) = Some (Seconds first_stage)
    /\ overall == 3 /\ first_stage == 1.
Proof.
  do 3 eexists. split; [vm_compute; reflexivity|].
  repeat split.
Qed.

(** With a compression time of 1 s the peak at 1 s is not a candidate:
    one delay is left and the first-stage delay is NaN. *)
Example process_results_after_compression :
  exists s overall,
    process_results DetectPeaks.detect_peaks
                    (Cases.rcm (Name "pressure") "max")
                    Cases.three_peaks = Ok s
    /\ simulated_ignition_delay (props s) = Some (Seconds overall)
    /\ simulated_first_stage_delay (props s) = Some NaN_seconds
    /\ overall == 2.
Proof.
  do 2 eexists. split; [vm_compute; reflexivity|].
  repeat split.
Qed.

(** ** Interpolation on a sampled profile *)

Lemma scan_count (key : Q) (arr : list Q) :
  forall j, (j <= length arr)%nat ->
    (forall i, (i < j)%nat -> nth i arr 0 <= key) ->
    ((j < length arr)%nat -> key < nth j arr 0) ->
    Np.scan key arr = j.
Proof.
  induction arr as [|a arr IH]; intros j Hj Hle Hlt.
  - simpl in *. lia.
  - destruct j as [|j].
    + simpl. specialize (Hlt ltac:(simpl; lia)). simpl in Hlt.
      destruct (Qle_bool a key) eqn:E; [|reflexivity].
      apply Qle_bool_iff in E. lra.
    + simpl. pose proof (Hle 0%nat ltac:(lia)) as H0. simpl in H0.
      apply Qle_bool_iff in H0. rewrite H0. f_equal.
      apply IH.
      * simpl in Hj. lia.
      * intros i Hi. apply (Hle (S i)). lia.
      * intro H. apply Hlt. simpl. lia.
Qed.

Lemma search_sorted (key : Q) (xp : list Q) (j : nat) :
  StronglySorted Qlt xp ->
  (j < length xp)%nat ->
  nth j xp 0 <= key ->
  ((S j < length xp)%nat -> key < nth (S j) xp 0) ->
  Np.search key xp = j.
Proof.
  intros Hs Hj Hle Hlt. unfold Np.search.
  destruct xp as [|x0 arr]; [simpl in Hj; lia|]. simpl tl.
  apply scan_count.
  - simpl in Hj. lia.
  - intros i Hi.
    change (nth i arr 0) with (nth (S i) (x0 :: arr) 0).
    destruct (Nat.eq_dec (S i) j) as [->|Hne]; [exact Hle|].
    pose proof (increasing_nth (x0 :: arr) (S i) j Hs ltac:(lia) Hj). lra.
  - intro H.
    change (nth j arr 0) with (nth (S j) (x0 :: arr) 0).
    apply Hlt. simpl. lia.
Qed.

Lemma last_nth (l : list Q) (d : Q) :
  l <> [] -> last l d = nth (length l - 1) l 0.
Proof.
  induction l as [|a [|b l] IH]; intro H; [congruence|reflexivity|].
  change (last (a :: b :: l) d) with (last (b :: l) d).
  rewrite IH by discriminate.
  simpl length. replace (S (S (length l)) - 1)%nat with (S (length l)) by lia.
  simpl. now rewrite Nat.sub_0_r.
Qed.

Section InterpFacts.

Variables xp fp : list Q.
Variables left right : Q.
Hypothesis sorted : StronglySorted Qlt xp.
Hypothesis same_length : length xp = length fp.
Hypothesis two_samples : (2 <= length xp)%nat.

Lemma interp_unfold (x : Q) :
  Np.interp x xp fp (Some left) (Some right)
  = if Qltb (nth (length xp - 1) xp 0) x then Ok right
    else if Qltb x (nth 0 xp 0) then Ok left
    else
      let j := Np.search x xp in
      if Nat.eqb j (length xp - 1) then Ok (nth j fp 0)
      else Ok ((nth (S j) fp 0 - nth j fp 0)
               / (nth (S j) xp 0 - nth j xp 0)
               * (x - nth j xp 0) + nth j fp 0).
Proof.
  unfold Np.interp.
  destruct xp as [|x0 xs] eqn:Ex; [simpl in two_samples; lia|].
  destruct fp as [|f0 fs] eqn:Ef; [simpl in same_length; lia|].
  rewrite same_length, Nat.eqb_refl.
  destruct (Nat.eqb_spec (length (f0 :: fs)) 1) as [E|_];
    [rewrite <- same_length in E; lia|].
  rewrite (last_nth (x0 :: xs) x0) by discriminate.
  rewrite <- same_length. reflexivity.
Qed.

Lemma interp_left (x : Q) :
  x < nth 0 xp 0 -> Np.interp x xp fp (Some left) (Some right) = Ok left.
Proof.
  intro H. rewrite interp_unfold.
  pose proof (increasing_nth xp 0 (length xp - 1) sorted ltac:(lia) ltac:(lia)).
  assert (E1 : Qltb (nth (length xp - 1) xp 0) x = false)
    by (apply Qltb_ge; lra).
  apply Qltb_lt in H. now rewrite E1, H.
Qed.

Lemma interp_right (x : Q) :
  nth (length xp - 1) xp 0 < x ->
  Np.interp x xp fp (Some left) (Some right) = Ok right.
Proof.
  intro H. rewrite interp_unfold. apply Qltb_lt in H. now rewrite H.
Qed.

Lemma interp_inside (x : Q) (j : nat) :
  (S j < length xp)%nat ->
  nth j xp 0 <= x -> x < nth (S j) xp 0 ->
  Np.interp x xp fp (Some left) (Some right)
  = Ok ((nth (S j) fp 0 - nth j fp 0) / (nth (S j) xp 0 - nth j xp 0)
        * (x - nth j xp 0) + nth j fp 0).
Proof.
  intros Hj Hle Hlt. rewrite interp_unfold.
  assert (Hlast : nth (S j) xp 0 <= nth (length xp - 1) xp 0).
  { destruct (Nat.eq_dec (S j) (length xp - 1)) as [->|Hne]; [lra|].
    pose proof (increasing_nth xp (S j) (length xp - 1) sorted
                  ltac:(lia) ltac:(lia)). lra. }
  assert (Hfirst : nth 0 xp 0 <= nth j xp 0).
  { destruct j as [|j']; [lra|].
    pose proof (increasing_nth xp 0 (S j') sorted ltac:(lia) ltac:(lia)).
    lra. }
  assert (E1 : Qltb (nth (length xp - 1) xp 0) x = false)
    by (apply Qltb_ge; lra).
  assert (E2 : Qltb x (nth 0 xp 0) = false) by (apply Qltb_ge; lra).
  rewrite E1, E2. cbv zeta.
  rewrite (search_sorted x xp j sorted ltac:(lia) Hle (fun _ => Hlt)).
  destruct (Nat.eqb_spec j (length xp - 1)) as [E|_]; [lia|reflexivity].
Qed.

Lemma interp_last (x : Q) :
  x == nth (length xp - 1) xp 0 ->
  Np.interp x xp fp (Some left) (Some right)
  = Ok (nth (length xp - 1) fp 0).
Proof.
  intro H. rewrite interp_unfold.
  pose proof (increasing_nth xp 0 (length xp - 1) sorted ltac:(lia) ltac:(lia)).
  assert (E1 : Qltb (nth (length xp - 1) xp 0) x = false)
    by (apply Qltb_ge; lra).
  assert (E2 : Qltb x (nth 0 xp 0) = false) by (apply Qltb_ge; lra).
  rewrite E1, E2. cbv zeta.
  rewrite (search_sorted x xp (length xp - 1) sorted ltac:(lia)
             ltac:(lra) ltac:(lia)).
  now rewrite Nat.eqb_refl.
Qed.

(** Between two consecutive samples, ends included, the interpolant is
    the line through them. *)
Lemma interp_segment (x : Q) (j : nat) :
  (S j < length xp)%nat ->
  nth j xp 0 <= x -> x <= nth (S j) xp 0 ->
  exists v,
    Np.interp x xp fp (Some left) (Some right) = Ok v
    /\ v == lerp (nth j xp 0) (nth j fp 0) (nth (S j) xp 0) (nth (S j) fp 0) x.
Proof.
  intros Hj Hle Hge.
  pose proof (increasing_nth xp j (S j) sorted ltac:(lia) Hj) as Hstep.
  destruct (Qlt_le_dec x (nth (S j) xp 0)) as [Hlt|Hge'].
  - eexists. split; [apply (interp_inside x j); assumption|].
    unfold lerp. field. intro E. lra.
  - assert (Hx : x == nth (S j) xp 0) by lra.
    assert (Hend : nth (S j) fp 0
                   == lerp (nth j xp 0) (nth j fp 0)
                           (nth (S j) xp 0) (nth (S j) fp 0) x).
    { unfold lerp. rewrite Hx. field. intro E. lra. }
    destruct (Nat.eq_dec (S j) (length xp - 1)) as [E|Hne].
    + eexists. split; [apply interp_last; rewrite <- E; exact Hx|].
      rewrite <- E. exact Hend.
    + pose proof (increasing_nth xp (S j) (S (S j)) sorted
                    ltac:(lia) ltac:(lia)) as Hnext.
      eexists. split.
      * apply (interp_inside x (S j)); [lia|lra|lra].
      * rewrite <- Hend. rewrite Hx. field. intro E. lra.
Qed.

End InterpFacts.

(** ** The sampling grid *)

Lemma sorted_map_seq (f : nat -> Q) :
  (forall i j, (i < j)%nat -> f i < f j) ->
  forall n a, StronglySorted Qlt (map f (seq a n)).
Proof.
  intros Hf n. induction n as [|n IH]; intro a; simpl; constructor.
  - apply IH.
  - rewrite Forall_forall. intros q Hq.
    apply in_map_iff in Hq. destruct Hq as (k & <- & Hk).
    apply in_seq in Hk. apply Hf. lia.
Qed.

Lemma inject_nat_lt (i j : nat) :
  (i < j)%nat -> inject_Z (Z.of_nat i) < inject_Z (Z.of_nat j).
Proof.
  intro H. rewrite <- Zlt_Qlt. lia.
Qed.

Lemma arange_increasing (start stop step : Q) :
  0 < step -> StronglySorted Qlt (Np.arange start stop step).
Proof.
  intro H. unfold Np.arange. apply sorted_map_seq.
  intros i j Hij. pose proof (inject_nat_lt i j Hij). nra.
Qed.

Lemma arange_length (start stop step : Q) :
  length (Np.arange start stop step)
  = Z.to_nat (Qceiling ((stop - start) / step)).
Proof.
  unfold Np.arange. now rewrite length_map, length_seq.
Qed.

Lemma arange_nth (start stop step : Q) (i : nat) :
  (i < length (Np.arange start stop step))%nat ->
  nth i (Np.arange start stop step) 0
  = start + inject_Z (Z.of_nat i) * step.
Proof.
  intro Hi. rewrite arange_length in Hi. unfold Np.arange.
  rewrite (nth_indep _ 0
             ((fun i => start + inject_Z (Z.of_nat i) * step) 0%nat))
    by (now rewrite length_map, length_seq).
  rewrite (map_nth (fun i => start + inject_Z (Z.of_nat i) * step)).
  rewrite seq_nth by exact Hi. reflexivity.
Qed.

(** Every sample is below [stop], and not below [start]. *)
Lemma arange_bounds (start stop step : Q) (i : nat) :
  0 < step ->
  (i < length (Np.arange start stop step))%nat ->
  start <= start + inject_Z (Z.of_nat i) * step
  /\ start + inject_Z (Z.of_nat i) * step < stop.
Proof.
  intros Hstep Hi. rewrite arange_length in Hi.
  set (q := (stop - start) / step) in *.
  assert (Hq : q * step == stop - start).
  { unfold q. field. intro E. lra. }
  assert (H0 : 0 <= inject_Z (Z.of_nat i)).
  { change 0 with (inject_Z 0). rewrite <- Zle_Qle. lia. }
  split; [nra|].
  assert (Hc : inject_Z (Z.of_nat i) < q).
  { pose proof (Qceiling_lt q) as Hlt.
    assert (Hz : (Z.of_nat i <= Qceiling q - 1)%Z) by lia.
    rewrite Zle_Qle in Hz. lra. }
  nra.
Qed.

(** The last sample is not below [stop - step]: the grid covers the
    whole interval. *)
Lemma arange_reaches (start stop step : Q) :
  0 < step -> start < stop ->
  let n := length (Np.arange start stop step) in
  (0 < n)%nat
  /\ stop - step <= start + inject_Z (Z.of_nat (n - 1)) * step.
Proof.
  intros Hstep Hlt. cbv zeta. rewrite arange_length.
  set (q := (stop - start) / step).
  assert (Hq : q * step == stop - start).
  { unfold q. field. intro E. lra. }
  assert (Hpos : 0 < q) by nra.
  pose proof (Qle_ceiling q) as Hle.
  assert (Hc : (0 < Qceiling q)%Z).
  { rewrite Zlt_Qlt. change (inject_Z 0) with 0. lra. }
  split; [lia|].
  replace (Z.of_nat (Z.to_nat (Qceiling q) - 1)) with (Qceiling q - 1)%Z
    by lia.
  unfold Z.sub. rewrite inject_Z_plus. change (inject_Z (-1)) with (-1 # 1).
  set (c := inject_Z (Qceiling q)) in *.
  assert (H1 : 0 <= (c - q) * step) by (apply Qmult_le_0_compat; lra).
  assert (H2 : (c + (-1 # 1)) * step == (c - q) * step + q * step - step)
    by ring.
  rewrite H2, Hq. lra.
Qed.

(** ** The pressure-rise history *)

Section GasFacts.

Variable density_TP : string -> string -> Q -> Q -> Q.
Variable entropy_TP : string -> string -> Q -> Q -> Q.
Variable density_SP : string -> string -> Q -> Q -> Q.
Variable density_default entropy_default : string -> Q.

Local Abbreviation density' :=
  (density density_TP density_SP density_default).
Local Abbreviation volume_loop' :=
  (volume_loop density_TP density_SP density_default).
Local Abbreviation create_volume_history' :=
  (create_volume_history density_TP entropy_TP density_SP
                         density_default entropy_default).

(** The loop queries the density at the given entropy and each sampled
    pressure, for the mechanism and the composition of the gas. *)
Lemma volume_loop_spec (s0 rho0 : Q) (pressures : list Q) :
  forall gas,
    volume_loop' gas s0 rho0 pressures
    = map (fun p => rho0 / density_SP (Ct.mech gas) (Ct.X gas) s0 p) pressures.
Proof.
  induction pressures as [|p ps IH]; intro gas; [reflexivity|].
  simpl. f_equal. rewrite IH. reflexivity.
Qed.

Lemma sample_rising_pressure_times (time_end init_pres freq rate : Q) :
  fst (sample_rising_pressure time_end init_pres freq rate)
  = Np.arange 0 (time_end + 1 / freq) (1 / freq).
Proof. reflexivity. Qed.

Lemma create_volume_history_unfold (mech : string) (temp pres : Q)
      (reactants : string) (pres_rise time_end : Q) :
  create_volume_history' mech temp pres reactants pres_rise time_end
  = (Np.arange 0 (time_end + 1 / 20000) (1 / 20000),
     map (fun t =>
            density_TP mech reactants temp pres
            / density_SP mech reactants (entropy_TP mech reactants temp pres)
                         (pres * (pres_rise * t + 1)))
         (Np.arange 0 (time_end + 1 / 20000) (1 / 20000))).
Proof.
  unfold create_volume_history, sample_rising_pressure.
  rewrite volume_loop_spec. rewrite map_map. reflexivity.
Qed.

(** C8, amended.  The times are the grid [i / 20000], [i = 0, 1, ...];
    no sample is negative, and a sample can lie after [time_end], by
    less than two sampling periods: [np.arange] is given the stop
    [time_end + 1/20000].  The pressure at a sample time [t] is
    [P0 * (A * t + 1)] and each volume is the initial density over the
    density at the initial entropy and the pressure of its sample
    time. *)
Theorem create_volume_history_samples (mech : string) (temp pres : Q)
        (reactants : string) (pres_rise time_end : Q) :
  let history :=
    create_volume_history' mech temp pres reactants pres_rise time_end in
  let times := fst history in
  let volumes := snd history in
  let pressures :=
    snd (sample_rising_pressure time_end pres 20000 pres_rise) in
  let initial_density := density_TP mech reactants temp pres in
  let initial_entropy := entropy_TP mech reactants temp pres in
  length volumes = length times
  /\ length pressures = length times
  /\ forall i, (i < length times)%nat ->
       let t := nth i times 0 in
       t == inject_Z (Z.of_nat i) * (1 # 20000)
       /\ 0 <= t
       /\ t < time_end + (2 # 20000)
       /\ nth i pressures 0 = pres * (pres_rise * t + 1)
       /\ nth i volumes 0
          = initial_density
            / density_SP mech reactants initial_entropy (nth i pressures 0).
Proof.
  cbv zeta. rewrite create_volume_history_unfold.
  unfold sample_rising_pressure. cbn [fst snd].
  set (h := 1 / 20000).
  assert (Hh : 0 < h) by reflexivity.
  assert (Hh' : h == 1 # 20000) by reflexivity.
  set (P := fun t => pres * (pres_rise * t + 1)).
  set (f := fun t => density_TP mech reactants temp pres
                     / density_SP mech reactants
                                  (entropy_TP mech reactants temp pres)
                                  (pres * (pres_rise * t + 1))).
  split; [apply length_map|]. split; [apply length_map|].
  intros i Hi.
  rewrite (nth_indep (map P _) 0 (P 0)) by (now rewrite length_map).
  rewrite (nth_indep (map f _) 0 (f 0)) by (now rewrite length_map).
  rewrite (map_nth P), (map_nth f).
  rewrite (arange_nth 0 (time_end + h) h i Hi).
  destruct (arange_bounds 0 (time_end + h) h i Hh Hi) as [Hlo Hhi].
  split; [rewrite Hh'; ring|].
  split; [exact Hlo|].
  split; [rewrite Hh' in Hhi at 2; lra|].
  split; reflexivity.
Qed.

End GasFacts.

(** C8 as stated fails: with an end time of 70 microseconds the grid is
    0, 50 and 100 microseconds, and the last sample is past the end
    time. *)
Lemma create_volume_history_past_end :
  fst (IdealGas.create_volume_history "h2.cti" 1000 101325 "H2:1" 10
                                      (7 # 100000))
  = [0 + inject_Z 0 * (1 / 20000);
     0 + inject_Z 1 * (1 / 20000);
     0 + inject_Z 2 * (1 / 20000)]
  /\ ~ Forall (fun t => 0 <= t /\ t <= 7 # 100000)
              (fst (IdealGas.create_volume_history
                      "h2.cti" 1000 101325 "H2:1" 10 (7 # 100000))).
Proof.
  split; [reflexivity|].
  intro H. rewrite Forall_forall in H.
  destruct (H (0 + inject_Z 2 * (1 / 20000))) as [_ Hle].
  - right. right. left. reflexivity.
  - revert Hle. vm_compute. intro Hle. apply Hle. reflexivity.
Qed.

Lemma create_volume_history_samples_witness :
  let history :=
    IdealGas.create_volume_history "h2.cti" 1000 101325 "H2:1" 10
                                   (12 # 100000) in
  let t := nth 3 (fst history) 0 in
  length (snd history) = length (fst history)
  /\ t == 3 # 20000
  /\ 12 # 100000 < t
  /\ t < (12 # 100000) + (2 # 20000)
  /\ nth 3 (snd history) 0
     = (101325 / 1000) / ((101325 * (10 * t + 1)) / 1000).
Proof.
  cbv zeta. unfold IdealGas.create_volume_history.
  pose proof (create_volume_history_samples
                IdealGas.density_TP IdealGas.entropy_TP IdealGas.density_SP
                IdealGas.density_default IdealGas.entropy_default
                "h2.cti" 1000 101325 "H2:1" 10 (12 # 100000)) as H.
  cbv zeta in H. destruct H as (Hlen & _ & H).
  destruct (H 3%nat ltac:(vm_compute; lia)) as (Ht & _ & Hhi & Hp & Hv).
  split; [exact Hlen|]. split; [exact Ht|].
  split; [rewrite Ht; reflexivity|]. split; [exact Hhi|].
  rewrite Hv, Hp. reflexivity.
Defined.

(** ** The velocity profiles *)

Lemma differences_two (eo : nat) (y d : list Q) :
  Np.differences eo y = Ok d -> (2 <= length y)%nat.
Proof.
  unfold Np.differences.
  destruct y as [|y0 [|y1 r]]; try discriminate. intros _. simpl. lia.
Qed.

Lemma divide_elementwise_same (out d r : list Q) :
  Np.divide_elementwise out d = Ok r -> length out = length d.
Proof.
  revert d r. induction out as [|o out IH]; intros [|h d] r H;
    simpl in H; try discriminate; [reflexivity|].
  apply bind_Ok in H. destruct H as (r' & Hr' & _).
  simpl. f_equal. eapply IH. exact Hr'.
Qed.

(** A derivative is returned only for arrays of one length, at least
    two, which is also the length of the derivative. *)
Lemma first_derivative_lengths (x y d : list Q) :
  first_derivative x y = Ok d ->
  length x = length y /\ length d = length y /\ (2 <= length y)%nat.
Proof.
  intro H. pose proof (first_derivative_length x y d H) as Hd.
  unfold first_derivative in H.
  apply bind_Ok in H. destruct H as (gx & Hgx & H).
  pose proof (gradient_length _ _ _ _ Hgx) as Hlx.
  unfold Np.gradient in Hgx, H.
  apply bind_Ok in Hgx. destruct Hgx as (ox & Hox & _).
  apply differences_two in Hox.
  apply bind_Ok in H. destruct H as (oy & Hoy & H).
  pose proof (differences_two _ _ _ Hoy) as Hy2.
  apply differences_length in Hoy.
  destruct gx as [|g0 [|g1 gx]]; try (simpl in Hlx; lia).
  simpl in H. destruct oy as [|o oy]; [discriminate|].
  apply bind_Ok in H. destruct H as (r & Hr & _).
  apply divide_elementwise_same in Hr.
  simpl in Hoy, Hlx, Hr. repeat split; try assumption. lia.
Qed.

(** A profile with increasing sample times and as many velocities, at
    least two, meets the query contract. *)
Lemma call_contract (p : VolumeProfile) :
  StronglySorted Qlt (times p) ->
  length (times p) = length (velocity p) ->
  (2 <= length (times p))%nat ->
  Contract.query p.
Proof.
  intros Hs Hl Hn. unfold Contract.query, call. repeat split.
  - intros t Ht. apply interp_left; assumption.
  - intros t Ht. apply interp_right; try assumption.
    rewrite <- (last_nth (times p) 0); [exact Ht|].
    destruct (times p); [simpl in Hn; lia|discriminate].
  - intros t j Hj Hlo Hhi. apply interp_segment; assumption.
Qed.

(** C7.  [VolumeProfile] keeps the times and stores as velocity the
    derivative in time of the volumes divided by the first one, a
    sequence that starts at 1; a call returns the linear interpolation
    of the velocities at the time asked for between two sample times,
    and 0 before the first and after the last; a [PressureRiseProfile]
    answers calls in the same way. *)
Theorem profile_contract :
  (forall (time volume : list Q) (p : VolumeProfile),
      VolumeProfile_init time volume = Ok p ->
      StronglySorted Qlt time ->
      (exists v0,
          nth_error volume 0 = Some v0
          /\ times p = time
          /\ first_derivative time (map (fun v => v / v0) volume)
             = Ok (velocity p)
          /\ (~ v0 == 0 -> nth 0 (map (fun v => v / v0) volume) 0 == 1))
      /\ Contract.query p)
  /\ (forall (density_TP entropy_TP density_SP : string -> string -> Q -> Q -> Q)
             (density_default entropy_default : string -> Q)
             (mech : string) (temp pres : Q) (reactants : string)
             (pres_rise time_end : Q) (p : VolumeProfile),
         PressureRiseProfile_init density_TP entropy_TP density_SP
                                  density_default entropy_default
                                  mech temp pres reactants pres_rise time_end
         = Ok p ->
         Contract.query p).
Proof.
  split.
  - intros time volume p Hinit Hs. unfold VolumeProfile_init in Hinit.
    apply bind_Ok in Hinit. destruct Hinit as (v0 & Hv0 & Hinit).
    apply bind_Ok in Hinit. destruct Hinit as (vel & Hvel & Hp).
    injection Hp as <-. cbn [times velocity].
    pose proof (first_derivative_lengths _ _ _ Hvel) as (Hxy & Hd & Hn).
    split.
    + exists v0. unfold getitem in Hv0.
      destruct volume as [|w volume]; [discriminate|].
      simpl in Hv0. injection Hv0 as ->.
      repeat split; try assumption.
      intro Hnz. simpl. field. exact Hnz.
    + apply call_contract; cbn [times velocity]; [exact Hs|lia|lia].
  - intros dTP eTP dSP dd ed mech temp pres reactants pres_rise time_end p.
    unfold PressureRiseProfile_init.
    rewrite create_volume_history_unfold.
    intro Hinit. apply bind_Ok in Hinit. destruct Hinit as (vel & Hvel & Hp).
    injection Hp as <-.
    pose proof (first_derivative_lengths _ _ _ Hvel) as (Hxy & Hd & Hn).
    apply call_contract; cbn [times velocity].
    + apply arange_increasing. reflexivity.
    + lia.
    + lia.
Qed.

Lemma profile_contract_witness :
  exists p v,
    VolumeProfile_init [0; 1; 2; 3] [2; 2; 1; 1] = Ok p
    /\ StronglySorted Qlt [0; 1; 2; 3]
    /\ Contract.query p
    /\ call p (-1 # 1) = Ok 0
    /\ call p 4 = Ok 0
    /\ call p (3 # 2) = Ok v
    /\ v == lerp 1 (nth 1 (velocity p) 0) 2 (nth 2 (velocity p) 0) (3 # 2).
Proof.
  assert (Hs : StronglySorted Qlt [0; 1; 2; 3]) by (repeat constructor).
  destruct (VolumeProfile_init [0; 1; 2; 3] [2; 2; 1; 1]) as [p|e] eqn:Hp;
    [|vm_compute in Hp; discriminate].
  destruct (proj1 profile_contract [0; 1; 2; 3] [2; 2; 1; 1] p Hp Hs)
    as ((v0 & _ & Ht & _ & _) & Hq).
  pose proof Hq as (Hleft & Hright & Hseg).
  destruct (Hseg (3 # 2) 1%nat) as (v & Hv & Hlerp).
  - rewrite Ht. simpl. lia.
  - rewrite Ht. vm_compute. discriminate.
  - rewrite Ht. vm_compute. discriminate.
  - exists p, v. split; [reflexivity|]. split; [exact Hs|].
    split; [exact Hq|].
    split; [apply Hleft; rewrite Ht; reflexivity|].
    split; [apply Hright; rewrite Ht; reflexivity|].
    split; [exact Hv|].
    rewrite Ht in Hlerp. exact Hlerp.
Defined.

(** The velocities of a piston that halves the volume between 1 s and
    2 s, and the velocity half-way. *)
Example volume_profile_call :
  exists p v,
    VolumeProfile_init [0; 1; 2; 3] [2; 2; 1; 1] = Ok p
    /\ Qlist_eq (velocity p) [1 # 4; -1 # 4; -1 # 4; 1 # 4]
    /\ call p (3 # 2) = Ok v /\ v == -1 # 4.
Proof.
  do 2 eexists. split; [vm_compute; reflexivity|].
  split; [repeat constructor|].
  split; [vm_compute; reflexivity|reflexivity].
Qed.

(** ** The peak detector *)

Lemma peaks_from_bounds (x : list Q) :
  forall i, Forall (fun p => (i <= p /\ p + 3 <= i + length x)%nat)
                   (DetectPeaks.peaks_from i x).
Proof.
  induction x as [|a x IH]; intro i; [constructor|].
  destruct x as [|b [|c x]]; try constructor.
  change (DetectPeaks.peaks_from i (a :: b :: c :: x))
    with (if (Qltb a b && Qle_bool c b)%bool
          then i :: DetectPeaks.peaks_from (S i) (b :: c :: x)
          else DetectPeaks.peaks_from (S i) (b :: c :: x)).
  assert (H : Forall (fun p => (i <= p /\ p + 3 <= i + length (a :: b :: c :: x))%nat)
                     (DetectPeaks.peaks_from (S i) (b :: c :: x))).
  { eapply Forall_impl; [|apply (IH (S i))]. simpl. intros p Hp. lia. }
  destruct (Qltb a b && Qle_bool c b)%bool; [constructor|]; try exact H.
  simpl. lia.
Qed.

Lemma peaks_from_sorted (x : list Q) :
  forall i, StronglySorted lt (DetectPeaks.peaks_from i x).
Proof.
  induction x as [|a x IH]; intro i; [constructor|].
  destruct x as [|b [|c x]]; try constructor.
  change (DetectPeaks.peaks_from i (a :: b :: c :: x))
    with (if (Qltb a b && Qle_bool c b)%bool
          then i :: DetectPeaks.peaks_from (S i) (b :: c :: x)
          else DetectPeaks.peaks_from (S i) (b :: c :: x)).
  destruct (Qltb a b && Qle_bool c b)%bool; [|apply IH].
  constructor; [apply IH|].
  eapply Forall_impl; [|apply (peaks_from_bounds (b :: c :: x) (S i))].
  simpl. intros p Hp. lia.
Qed.

(** The detector returns increasing indices of interior samples. *)
Lemma detect_peaks_ordered (x : list Q) :
  StronglySorted lt (DetectPeaks.detect_peaks x)
  /\ Forall (fun p => (1 <= p /\ p + 1 < length x)%nat)
            (DetectPeaks.detect_peaks x).
Proof.
  split; [apply peaks_from_sorted|].
  eapply Forall_impl; [|apply (peaks_from_bounds x 1)].
  simpl. intros p Hp. lia.
Qed.

(** It finds no peak on a series that never rises and none on one that
    rises at every step. *)
Lemma detect_peaks_monotone (x : list Q) :
  StronglySorted Qlt x \/ StronglySorted (fun a b => b <= a) x ->
  DetectPeaks.detect_peaks x = [].
Proof.
  unfold DetectPeaks.detect_peaks. generalize 1%nat.
  induction x as [|a x IH]; intros i H; [reflexivity|].
  destruct x as [|b [|c x]]; try reflexivity.
  change (DetectPeaks.peaks_from i (a :: b :: c :: x))
    with (if (Qltb a b && Qle_bool c b)%bool
          then i :: DetectPeaks.peaks_from (S i) (b :: c :: x)
          else DetectPeaks.peaks_from (S i) (b :: c :: x)).
  assert (Htest : (Qltb a b && Qle_bool c b)%bool = false).
  { destruct H as [H|H].
    - inversion H as [|? ? H1 _]; subst.
      inversion H1 as [|? ? _ H2]; subst.
      inversion H2 as [|? ? Hbc _]; subst.
      apply andb_false_iff. right.
      destruct (Qle_bool c b) eqn:E; [|reflexivity].
      apply Qle_bool_iff in E. lra.
    - inversion H as [|? ? _ H2]; subst.
      inversion H2 as [|? ? Hab _]; subst.
      apply andb_false_iff. left. apply Qltb_ge. exact Hab. }
  rewrite Htest. apply IH.
  destruct H as [H|H]; [left|right]; now inversion H.
Qed.

(** * Further properties *)

(** ** [first_derivative]: domain and order *)

Lemma differences_short (eo : nat) (y : list Q) :
  (length y < 2)%nat -> Np.differences eo y = Raise ValueError.
Proof.
  destruct y as [|y0 [|y1 r]]; simpl; intro H; try reflexivity. lia.
Qed.

Lemma differences_defined (eo : nat) (y : list Q) :
  (2 <= length y)%nat -> exists d, Np.differences eo y = Ok d.
Proof.
  intro Hn. destruct (rev_head2 y Hn) as [t Ht].
  destruct y as [|y0 [|y1 r]]; try (simpl in Hn; lia).
  unfold Np.differences. rewrite Ht.
  destruct r, t, (Nat.eqb eo 1); eauto.
Qed.

Lemma divide_elementwise_mismatch (out d : list Q) :
  length out <> length d -> Np.divide_elementwise out d = Raise ValueError.
Proof.
  revert d. induction out as [|o out IH]; intros [|h d] H; simpl in *;
    try reflexivity; try congruence.
  rewrite IH by congruence. reflexivity.
Qed.

(** X1.  [first_derivative] returns a derivative only for two arrays of
    one length, at least two, and then of that length; it returns one
    for every pair of arrays of one length, at least three; arrays of
    different lengths, or an [x] with fewer than two samples, raise
    [ValueError]. *)
Theorem first_derivative_domain (x y : list Q) :
  (forall d, first_derivative x y = Ok d ->
             length x = length y /\ length d = length x
             /\ (2 <= length x)%nat)
  /\ (length x = length y -> (3 <= length x)%nat ->
      exists d, first_derivative x y = Ok d)
  /\ (length x <> length y \/ (length x < 2)%nat ->
      first_derivative x y = Raise ValueError).
Proof.
  split; [|split].
  - intros d H. destruct (first_derivative_lengths x y d H) as (H1 & H2 & H3).
    repeat split; lia.
  - intros Hxy Hn.
    destruct (first_derivative_closed_form x y Hxy Hn) as (d & Hd & _).
    eauto.
  - intro H. unfold first_derivative, Np.gradient.
    destruct (Nat.lt_ge_cases (length x) 2) as [Hx|Hx].
    { rewrite differences_short by exact Hx. reflexivity. }
    destruct H as [H|H]; [|lia].
    destruct (differences_defined 1 x Hx) as (ox & Hox).
    rewrite Hox. cbn [Py.bind Np.divide].
    pose proof (differences_length _ _ _ Hox) as Hlx.
    destruct (Nat.lt_ge_cases (length y) 2) as [Hy|Hy].
    { rewrite differences_short by exact Hy. reflexivity. }
    destruct (differences_defined 2 y Hy) as (oy & Hoy).
    rewrite Hoy. cbn [Py.bind].
    pose proof (differences_length _ _ _ Hoy) as Hly.
    set (gx := map (fun o => o / 1) ox).
    assert (Hgx : length gx = length x)
      by (unfold gx; rewrite length_map; exact Hlx).
    unfold Np.divide.
    destruct gx as [|g0 [|g1 gx']] eqn:E; try (simpl in Hgx; lia).
    apply divide_elementwise_mismatch. rewrite Hly, Hgx. congruence.
Qed.

Lemma first_derivative_domain_witness :
  (exists d, first_derivative [0; 1; 3] [5; 4; 8] = Ok d)
  /\ first_derivative [0; 1; 3] [5; 4] = Raise ValueError
  /\ first_derivative [0] [5] = Raise ValueError.
Proof.
  destruct (first_derivative_domain [0; 1; 3] [5; 4; 8]) as (_ & H & _).
  destruct (first_derivative_domain [0; 1; 3] [5; 4]) as (_ & _ & H1).
  destruct (first_derivative_domain [0] [5]) as (_ & _ & H2).
  split; [apply H; [reflexivity|simpl; lia]|].
  split; [apply H1; left; simpl; lia|apply H2; right; simpl; lia].
Defined.






(** ** [sample_rising_pressure] *)

Lemma inject_Z_succ (z : Z) : inject_Z (z + 1) == inject_Z z + 1.
Proof.
  rewrite inject_Z_plus. reflexivity.
Qed.


(** X5.  For an end time that is not negative and a positive frequency,
    [sample_rising_pressure] returns a grid that is not empty, and as
    many pressures as times; the times are the [i / freq], they increase
    from 0, and the pressures are the [init_pres * (rate * t + 1)] of the
    times [t], the first one being the initial pressure. *)
Theorem sample_rising_pressure_grid (time_end init_pres freq rate : Q) :
  0 <= time_end -> 0 < freq ->
  let times := fst (sample_rising_pressure time_end init_pres freq rate) in
  let pressures := snd (sample_rising_pressure time_end init_pres freq rate) in
  (0 < length times)%nat
  /\ length pressures = length times
  /\ StronglySorted Qlt times
  /\ nth 0 times 0 == 0
  /\ nth 0 pressures 0 == init_pres
  /\ forall i, (i < length times)%nat ->
       nth i times 0 == inject_Z (Z.of_nat i) / freq
       /\ nth i pressures 0 == init_pres * (rate * nth i times 0 + 1).
Proof.
  intros Hte Hf. cbv zeta. unfold sample_rising_pressure. cbn [fst snd].
  assert (Hstep : 0 < 1 / freq).
  { apply Qlt_shift_div_l; lra. }
  destruct (arange_reaches 0 (time_end + 1 / freq) (1 / freq) Hstep
                           ltac:(lra)) as [Hn _].
  set (f := fun t => init_pres * (rate * t + 1)).
  assert (Hnth : forall i,
             (i < length (Np.arange 0 (time_end + 1 / freq) (1 / freq)))%nat ->
             nth i (map f (Np.arange 0 (time_end + 1 / freq) (1 / freq))) 0
             = f (nth i (Np.arange 0 (time_end + 1 / freq) (1 / freq)) 0)).
  { intros i Hi. rewrite (nth_indep _ 0 (f 0)) by (now rewrite length_map).
    apply (map_nth f). }
  split; [exact Hn|]. split; [apply length_map|].
  split; [apply arange_increasing; exact Hstep|].
  split; [rewrite arange_nth by exact Hn; simpl inject_Z; ring|].
  split.
  - rewrite Hnth by exact Hn. rewrite arange_nth by exact Hn.
    unfold f. simpl inject_Z. ring.
  - intros i Hi. split.
    + rewrite arange_nth by exact Hi. field. lra.
    + rewrite Hnth by exact Hi. reflexivity.
Qed.

Lemma sample_rising_pressure_grid_witness :
  let times := fst (sample_rising_pressure (1 # 10) 101325 100 10) in
  let pressures := snd (sample_rising_pressure (1 # 10) 101325 100 10) in
  (0 < length times)%nat
  /\ length pressures = length times
  /\ StronglySorted Qlt times
  /\ nth 0 times 0 == 0
  /\ nth 0 pressures 0 == 101325
  /\ forall i, (i < length times)%nat ->
       nth i times 0 == inject_Z (Z.of_nat i) / 100
       /\ nth i pressures 0 == 101325 * (10 * nth i times 0 + 1).
Proof.
  apply (sample_rising_pressure_grid (1 # 10) 101325 100 10);
    [discriminate|reflexivity].
Defined.



(** ** The profiles: construction and calls *)

Lemma first_derivative_short (x y : list Q) :
  (length x < 2)%nat -> first_derivative x y = Raise ValueError.
Proof.
  intro H. unfold first_derivative, Np.gradient.
  rewrite differences_short by exact H. reflexivity.
Qed.

Lemma first_derivative_defined (x y : list Q) :
  length x = length y -> (3 <= length x)%nat ->
  exists d, first_derivative x y = Ok d.
Proof.
  intros Hxy Hn.
  destruct (first_derivative_closed_form x y Hxy Hn) as (d & Hd & _). eauto.
Qed.

(** X7.  A pressure-rise profile cannot be built for an end time that is
    not positive: the history has at most one sample and the derivative
    raises [ValueError].  For an end time of two sampling periods or more
    it is built, on at least three samples. *)
Theorem PressureRiseProfile_init_end_time
        (density_TP entropy_TP density_SP : string -> string -> Q -> Q -> Q)
        (density_default entropy_default : string -> Q)
        (mech : string) (temp pres : Q) (reactants : string)
        (pres_rise time_end : Q) :
  (time_end <= 0 ->
   PressureRiseProfile_init density_TP entropy_TP density_SP
                            density_default entropy_default
                            mech temp pres reactants pres_rise time_end
   = Raise ValueError)
  /\ (2 # 20000 <= time_end ->
      exists p,
        PressureRiseProfile_init density_TP entropy_TP density_SP
                                 density_default entropy_default
                                 mech temp pres reactants pres_rise time_end
        = Ok p
        /\ (3 <= length (times p))%nat
        /\ length (velocity p) = length (times p)).
Proof.
  unfold PressureRiseProfile_init. rewrite create_volume_history_unfold.
  set (h := 1 / 20000).
  assert (Hh : h == 1 # 20000) by reflexivity.
  assert (Hq : (time_end + h - 0) / h == time_end * 20000 + 1).
  { rewrite Hh. field. }
  split.
  - intro Hte.
    rewrite first_derivative_short; [reflexivity|].
    rewrite arange_length.
    assert (Hc : (Qceiling ((time_end + h - 0) / h) <= 1)%Z).
    { rewrite <- (Qceiling_Z 1). apply Qceiling_resp_le.
      change (inject_Z 1) with 1.
      set (X := (time_end + h - 0) / h) in *. lra. }
    lia.
  - intro Hte.
    assert (Hc : (3 <= Qceiling ((time_end + h - 0) / h))%Z).
    { pose proof (Qle_ceiling ((time_end + h - 0) / h)) as H.
      rewrite Zle_Qle. change (inject_Z 3) with 3.
      set (X := (time_end + h - 0) / h) in *. lra. }
    assert (Hn : (3 <= length (Np.arange 0 (time_end + h) h))%nat).
    { rewrite arange_length. lia. }
    match goal with
    | |- context [first_derivative ?x ?y] =>
        destruct (first_derivative_defined x y) as (d & Hd);
          [now rewrite length_map|exact Hn|]
    end.
    rewrite Hd. cbn [Py.bind]. eexists. split; [reflexivity|].
    cbn [times velocity]. split; [exact Hn|].
    apply first_derivative_length in Hd. rewrite Hd. apply length_map.
Qed.

Lemma PressureRiseProfile_init_end_time_witness :
  IdealGas.PressureRiseProfile_init "h2.cti" 1000 101325 "H2:1" 10 0
  = Raise ValueError
  /\ exists p,
       IdealGas.PressureRiseProfile_init "h2.cti" 1000 101325 "H2:1" 10
                                         (1 # 100)
       = Ok p
       /\ (3 <= length (times p))%nat
       /\ length (velocity p) = length (times p).
Proof.
  split.
  - apply (proj1 (PressureRiseProfile_init_end_time
                    IdealGas.density_TP IdealGas.entropy_TP
                    IdealGas.density_SP IdealGas.density_default
                    IdealGas.entropy_default
                    "h2.cti" 1000 101325 "H2:1" 10 0)).
    discriminate.
  - apply (proj2 (PressureRiseProfile_init_end_time
                    IdealGas.density_TP IdealGas.entropy_TP
                    IdealGas.density_SP IdealGas.density_default
                    IdealGas.entropy_default
                    "h2.cti" 1000 101325 "H2:1" 10 (1 # 100))).
    discriminate.
Defined.

(** X8.  [VolumeProfile] raises [IndexError] on an empty volume history
    and [ValueError] on histories of different lengths or with fewer than
    two times; when it is built, it keeps the times and holds one
    velocity for each of them. *)
Theorem VolumeProfile_init_domain (time volume : list Q) :
  (volume = [] -> VolumeProfile_init time volume = Raise IndexError)
  /\ (volume <> [] ->
      length time <> length volume \/ (length time < 2)%nat ->
      VolumeProfile_init time volume = Raise ValueError)
  /\ (forall p, VolumeProfile_init time volume = Ok p ->
                times p = time
                /\ length (velocity p) = length time
                /\ length volume = length time
                /\ (2 <= length time)%nat).
Proof.
  split; [|split].
  - intros ->. reflexivity.
  - intros Hne H. unfold VolumeProfile_init.
    destruct volume as [|v0 volume]; [congruence|].
    cbn [getitem nth_error Py.bind].
    destruct (Nat.lt_ge_cases (length time) 2) as [Ht|Ht].
    { rewrite first_derivative_short by exact Ht. reflexivity. }
    destruct H as [H|H]; [|lia].
    destruct (first_derivative time (map (fun v => v / v0) (v0 :: volume)))
      as [d|e] eqn:Hd.
    + apply first_derivative_lengths in Hd. rewrite length_map in Hd.
      destruct Hd as (Hd & _). contradiction.
    + unfold first_derivative, Np.gradient in Hd.
      destruct (differences_defined 1 time Ht) as (ox & Hox).
      rewrite Hox in Hd. cbn [Py.bind Np.divide] in Hd.
      pose proof (differences_length _ _ _ Hox) as Hlx.
      apply bind_Raise in Hd.
      destruct Hd as [Hd|(oy & Hoy & Hd)].
      * unfold Np.differences in Hd.
        destruct (map (fun v => v / v0) (v0 :: volume)) as [|y0 [|y1 r]];
          try (injection Hd as <-; reflexivity).
        destruct (rev (y0 :: y1 :: r)) as [|a [|b' t]];
          try (injection Hd as <-; reflexivity).
        destruct r, t, (Nat.eqb 2 1); discriminate.
      * pose proof (differences_length _ _ _ Hoy) as Hly.
        rewrite length_map in Hly.
        set (gx := map (fun o => o / 1) ox) in *.
        assert (Hgx : length gx = length time)
          by (unfold gx; rewrite length_map; exact Hlx).
        unfold Np.divide in Hd.
        destruct gx as [|g0 [|g1 gx']] eqn:E; try (simpl in Hgx; lia).
        rewrite divide_elementwise_mismatch in Hd
          by (rewrite Hly, Hgx; congruence).
        injection Hd as <-. reflexivity.
  - intros p Hp. unfold VolumeProfile_init in Hp.
    apply bind_Ok in Hp. destruct Hp as (v0 & _ & Hp).
    apply bind_Ok in Hp. destruct Hp as (vel & Hvel & Hp).
    injection Hp as <-. cbn [times velocity].
    apply first_derivative_lengths in Hvel. rewrite length_map in Hvel.
    destruct Hvel as (H1 & H2 & H3). repeat split; lia.
Qed.

Lemma VolumeProfile_init_domain_witness :
  VolumeProfile_init [0; 1; 2] [] = Raise IndexError
  /\ VolumeProfile_init [0; 1; 2] [2; 1] = Raise ValueError
  /\ VolumeProfile_init [0] [2] = Raise ValueError.
Proof.
  split; [apply (proj1 (VolumeProfile_init_domain [0; 1; 2] [])); reflexivity|].
  split.
  - apply (proj1 (proj2 (VolumeProfile_init_domain [0; 1; 2] [2; 1])));
      [discriminate|left; simpl; lia].
  - apply (proj1 (proj2 (VolumeProfile_init_domain [0] [2])));
      [discriminate|right; simpl; lia].
Defined.





Lemma interp_total (x : Q) (xp fp : list Q) (left right : option Q) :
  xp <> [] -> length xp = length fp ->
  exists v, Np.interp x xp fp left right = Ok v.
Proof.
  intros Hne Hl. unfold Np.interp.
  destruct xp as [|x0 xs]; [congruence|].
  destruct fp as [|f0 fs]; [simpl in Hl; lia|].
  rewrite Hl, Nat.eqb_refl.
  destruct (Nat.eqb (length (f0 :: fs)) 1); [eauto|].
  destruct (Qltb (last (x0 :: xs) x0) x); [eauto|].
  destruct (Qltb x x0); [eauto|].
  cbv zeta.
  destruct (Nat.eqb (Np.search x (x0 :: xs)) (length (f0 :: fs) - 1)); eauto.
Qed.

(** X10.  A call of a profile that was built never raises, whatever the
    time asked for and whatever the order of the sample times. *)
Theorem call_total :
  (forall (time volume : list Q) (p : VolumeProfile) (t : Q),
      VolumeProfile_init time volume = Ok p ->
      exists v, call p t = Ok v)
  /\ (forall (density_TP entropy_TP density_SP : string -> string -> Q -> Q -> Q)
             (density_default entropy_default : string -> Q)
             (mech : string) (temp pres : Q) (reactants : string)
             (pres_rise time_end : Q) (p : VolumeProfile) (t : Q),
         PressureRiseProfile_init density_TP entropy_TP density_SP
                                  density_default entropy_default
                                  mech temp pres reactants pres_rise time_end
         = Ok p ->
         exists v, call p t = Ok v).
Proof.
  assert (H : forall (ts ys vel : list Q) (t : Q),
             first_derivative ts ys = Ok vel ->
             exists v, call {| times := ts; velocity := vel |} t = Ok v).
  { intros ts ys vel t Hvel. unfold call. cbn [times velocity].
    pose proof (first_derivative_lengths _ _ _ Hvel) as (H1 & H2 & H3).
    apply interp_total; [|lia].
    destruct ts; [simpl in *; lia|discriminate]. }
  split.
  - intros time volume p t Hp. unfold VolumeProfile_init in Hp.
    apply bind_Ok in Hp. destruct Hp as (v0 & _ & Hp).
    apply bind_Ok in Hp. destruct Hp as (vel & Hvel & Hp).
    injection Hp as <-. eapply H. exact Hvel.
  - intros dTP eTP dSP dd ed mech temp pres reactants pres_rise time_end p t.
    unfold PressureRiseProfile_init. rewrite create_volume_history_unfold.
    intro Hp. apply bind_Ok in Hp. destruct Hp as (vel & Hvel & Hp).
    injection Hp as <-. eapply H. exact Hvel.
Qed.

Lemma call_total_witness :
  exists p v,
    VolumeProfile_init [3; 1; 2; 0] [2; 2; 1; 1] = Ok p
    /\ call p (3 # 2) = Ok v.
Proof.
  destruct (VolumeProfile_init [3; 1; 2; 0] [2; 2; 1; 1]) as [p|e] eqn:Hp;
    [|vm_compute in Hp; discriminate].
  destruct (proj1 call_total [3; 1; 2; 0] [2; 2; 1; 1] p (3 # 2) Hp)
    as (v & Hv).
  exists p, v. split; [reflexivity|exact Hv].
Defined.

(** X11.  At a sample time a call returns the velocity stored for that
    time: the interpolant passes through the samples. *)
Theorem call_at_sample (time volume : list Q) (p : VolumeProfile) (j : nat) :
  VolumeProfile_init time volume = Ok p ->
  StronglySorted Qlt time ->
  (j < length time)%nat ->
  exists v, call p (nth j time 0) = Ok v /\ v == nth j (velocity p) 0.
Proof.
  intros Hp Hs Hj. unfold VolumeProfile_init in Hp.
  apply bind_Ok in Hp. destruct Hp as (v0 & _ & Hp).
  apply bind_Ok in Hp. destruct Hp as (vel & Hvel & Hp).
  injection Hp as <-. unfold call. cbn [times velocity].
  pose proof (first_derivative_lengths _ _ _ Hvel) as (H1 & H2 & H3).
  rewrite length_map in *.
  assert (Hl : length time = length vel) by lia.
  assert (Hn : (2 <= length time)%nat) by lia.
  destruct (Nat.eq_dec j (length time - 1)) as [->|Hne].
  - eexists. split; [apply interp_last; try assumption; reflexivity|].
    rewrite Hl. reflexivity.
  - pose proof (increasing_nth time j (S j) Hs ltac:(lia) ltac:(lia)) as Hlt.
    eexists. split.
    + apply (interp_inside time vel 0 0 Hs Hl Hn (nth j time 0) j);
        [lia|lra|exact Hlt].
    + field. intro E. lra.
Qed.

Lemma call_at_sample_witness :
  exists p v,
    VolumeProfile_init [0; 1; 2; 3] [2; 2; 1; 1] = Ok p
    /\ call p (nth 2 [0; 1; 2; 3] 0) = Ok v
    /\ v == nth 2 (velocity p) 0.
Proof.
  destruct (VolumeProfile_init [0; 1; 2; 3] [2; 2; 1; 1]) as [p|e] eqn:Hp;
    [|vm_compute in Hp; discriminate].
  destruct (call_at_sample [0; 1; 2; 3] [2; 2; 1; 1] p 2 Hp) as (v & Hv & E).
  - repeat constructor.
  - simpl. lia.
  - exists p, v. auto.
Defined.

(** ** [run_case]: the recorded table *)

Lemma sorted_snoc (l : list Q) (x : Q) :
  StronglySorted Qlt l -> Forall (fun a => a < x) l ->
  StronglySorted Qlt (l ++ [x]).
Proof.
  intros Hs Hx. induction Hs as [|a l Hs IH Ha]; simpl.
  - repeat constructor.
  - inversion Hx as [|? ? Hax Hlx]; subst.
    constructor; [apply IH; exact Hlx|].
    apply Forall_app. split; [exact Ha|]. repeat constructor. exact Hax.
Qed.

Section TableFacts.

Variable reactor : Type.
Variable net_step : Q -> reactor -> reactor.
Variables net_time reac_T thermo_P reac_volume : reactor -> Q.
Variable reac_Y : reactor -> list Q.

Local Abbreviation interpolated_row' :=
  (interpolated_row reactor net_time reac_T thermo_P reac_volume reac_Y).
Local Abbreviation current_row' :=
  (current_row reactor net_time reac_T thermo_P reac_volume reac_Y).
Local Abbreviation save_previous' :=
  (save_previous reactor net_time reac_T thermo_P reac_volume reac_Y).
Local Abbreviation integrate' :=
  (integrate reactor net_step net_time reac_T thermo_P reac_volume reac_Y).
Local Abbreviation run_case' :=
  (run_case reactor net_step net_time reac_T thermo_P reac_volume reac_Y).
Local Abbreviation integrate_S' :=
  (integrate_S reactor net_step net_time reac_T thermo_P reac_volume reac_Y).
Local Abbreviation integrate_O' :=
  (integrate_O reactor net_step net_time reac_T thermo_P reac_volume reac_Y).

Lemma integrate_done (fuel : nat) (te : Q) (r : reactor)
      (prev : option previous) (table : list Table.row) :
  te <= net_time r -> integrate' fuel te r prev table = Some (Ok table).
Proof.
  intro H. apply Qltb_ge in H.
  destruct fuel; [rewrite integrate_O'|rewrite integrate_S'];
    rewrite H; reflexivity.
Qed.

Lemma interpolated_row_time (te : Q) (prev : option previous) (r : reactor)
      (row : Table.row) :
  interpolated_row' te prev r = Ok row -> Table.time row = te.
Proof.
  unfold interpolated_row. destruct prev as [p|]; [|discriminate].
  intro H.
  apply bind_Ok in H. destruct H as (v1 & _ & H).
  apply bind_Ok in H. destruct H as (v2 & _ & H).
  apply bind_Ok in H. destruct H as (v3 & _ & H).
  apply bind_Ok in H. destruct H as (ys & _ & H).
  injection H as <-. reflexivity.
Qed.

(** What a run of the loop appends: rows at or before the end time, the
    last of them at the end time; nothing when the loop is not entered. *)
Lemma integrate_appends (fuel : nat) (te : Q) :
  forall (r : reactor) (prev : option previous) (table table' : list Table.row),
    integrate' fuel te r prev table = Some (Ok table') ->
    exists rows,
      table' = table ++ rows
      /\ Forall (fun row => Table.time row <= te) rows
      /\ (te <= net_time r -> rows = [])
      /\ (net_time r < te ->
          exists rows' final,
            rows = rows' ++ [final] /\ Table.time final == te).
Proof.
  induction fuel as [|fuel IH]; intros r prev table table' H.
  - rewrite integrate_O' in H.
    destruct (Qltb (net_time r) te) eqn:E; [discriminate|].
    injection H as <-. apply Qltb_ge in E.
    exists []. rewrite app_nil_r. repeat split; auto. intro. lra.
  - rewrite integrate_S' in H.
    destruct (Qltb (net_time r) te) eqn:E.
    2:{ injection H as <-. apply Qltb_ge in E.
        exists []. rewrite app_nil_r. repeat split; auto. intro. lra. }
    apply Qltb_lt in E.
    destruct (Qltb te (net_time (net_step te r))) eqn:E1.
    + apply Qltb_lt in E1.
      destruct (interpolated_row' te prev (net_step te r)) as [row|e] eqn:Hrow;
        [|discriminate].
      rewrite integrate_done in H by lra. injection H as <-.
      apply interpolated_row_time in Hrow.
      exists [row]. split; [reflexivity|].
      split; [repeat constructor; rewrite Hrow; lra|].
      split; [intro; lra|]. intros _. exists [], row.
      split; [reflexivity|]. rewrite Hrow. reflexivity.
    + apply Qltb_ge in E1.
      destruct (IH _ _ _ _ H) as (rows & -> & Hle & Hnil & Hlast).
      exists (current_row' (net_step te r) :: rows).
      split; [now rewrite <- app_assoc|].
      split; [constructor; [exact E1|exact Hle]|].
      split; [intro; lra|]. intros _.
      destruct (Qlt_le_dec (net_time (net_step te r)) te) as [Hlt|Hge].
      * destruct (Hlast Hlt) as (rows' & final & -> & Hfin).
        exists (current_row' (net_step te r) :: rows'), final.
        split; [reflexivity|exact Hfin].
      * rewrite (Hnil Hge). exists [], (current_row' (net_step te r)).
        split; [reflexivity|]. simpl. lra.
Qed.

(** X12.  When the reactor starts before the end time, the table that
    [run_case] returns starts with the initial state and ends with a row
    whose time is the end time; no row is later than the end time. *)
Theorem run_case_table (fuel : nat) (self : Simulation) (te : Q)
        (r0 : reactor) (table : list Table.row) :
  time_end self = Some te ->
  net_time r0 < te ->
  run_case' fuel self r0 = Some (Ok table) ->
  exists rows final,
    table = current_row' r0 :: rows ++ [final]
    /\ Table.time final == te
    /\ Forall (fun row => Table.time row <= te) table.
Proof.
  intros Hte H0 H. unfold run_case in H. rewrite Hte in H.
  destruct (integrate_appends _ _ _ _ _ _ H) as (rows & -> & Hle & _ & Hlast).
  destruct (Hlast H0) as (rows' & final & -> & Hfin).
  exists rows', final. split; [reflexivity|]. split; [exact Hfin|].
  constructor; [simpl; lra|exact Hle].
Qed.

(** The times of the table increase when every advance moves the time
    forward. *)
Lemma integrate_increasing (fuel : nat) (te : Q) :
  (forall r, net_time r < net_time (net_step te r)) ->
  forall (r : reactor) (prev : option previous) (table table' : list Table.row),
    StronglySorted Qlt (map Table.time table) ->
    Forall (fun t => t <= net_time r) (map Table.time table) ->
    integrate' fuel te r prev table = Some (Ok table') ->
    StronglySorted Qlt (map Table.time table').
Proof.
  intro Hmono.
  induction fuel as [|fuel IH]; intros r prev table table' Hs Hb H.
  - rewrite integrate_O' in H.
    destruct (Qltb (net_time r) te); [discriminate|].
    injection H as <-. exact Hs.
  - rewrite integrate_S' in H.
    destruct (Qltb (net_time r) te) eqn:E; [|injection H as <-; exact Hs].
    apply Qltb_lt in E. pose proof (Hmono r) as Hstep.
    destruct (Qltb te (net_time (net_step te r))) eqn:E1.
    + apply Qltb_lt in E1.
      destruct (interpolated_row' te prev (net_step te r)) as [row|e] eqn:Hrow;
        [|discriminate].
      rewrite integrate_done in H by lra. injection H as <-.
      apply interpolated_row_time in Hrow.
      rewrite map_app. simpl. rewrite Hrow.
      apply sorted_snoc; [exact Hs|].
      eapply Forall_impl; [|exact Hb]. simpl. intros t Ht. lra.
    + refine (IH _ _ _ _ _ _ H).
      * rewrite map_app. simpl. apply sorted_snoc; [exact Hs|].
        eapply Forall_impl; [|exact Hb]. simpl. intros t Ht. lra.
      * rewrite map_app. apply Forall_app. split.
        -- eapply Forall_impl; [|exact Hb]. simpl. intros t Ht. lra.
        -- repeat constructor. simpl. lra.
Qed.

(** X13.  When every advance moves the time forward, the times of the
    table increase strictly: the table is a valid abscissa for
    [first_derivative]. *)
Theorem run_case_times_increase (fuel : nat) (self : Simulation) (te : Q)
        (r0 : reactor) (table : list Table.row) :
  time_end self = Some te ->
  (forall r, net_time r < net_time (net_step te r)) ->
  run_case' fuel self r0 = Some (Ok table) ->
  StronglySorted Qlt (map Table.time table).
Proof.
  intros Hte Hmono H. unfold run_case in H. rewrite Hte in H.
  refine (integrate_increasing fuel te Hmono _ _ _ _ _ _ H).
  - simpl. repeat constructor.
  - simpl. repeat constructor. simpl. lra.
Qed.

(** X14.  When every advance moves the time forward by at least [step],
    the loop ends within [n] iterations once [n * step] covers the time
    left to the end time. *)
Theorem run_case_terminates (fuel : nat) (self : Simulation) (te step : Q)
        (r0 : reactor) :
  time_end self = Some te ->
  0 < step ->
  (forall r, net_time r + step <= net_time (net_step te r)) ->
  te - net_time r0 <= inject_Z (Z.of_nat fuel) * step ->
  exists outcome, run_case' fuel self r0 = Some outcome.
Proof.
  intros Hte Hstep Hprog Hfuel. unfold run_case. rewrite Hte.
  generalize (@None previous) as prev.
  generalize [current_row' r0] as table.
  revert r0 Hfuel.
  induction fuel as [|fuel IH]; intros r Hfuel table prev.
  - rewrite integrate_O'.
    assert (E : Qltb (net_time r) te = false).
    { apply Qltb_ge. change (inject_Z (Z.of_nat 0)) with 0 in Hfuel. lra. }
    rewrite E. eauto.
  - rewrite integrate_S'.
    destruct (Qltb (net_time r) te); [|eauto].
    destruct (if Qltb te (net_time (net_step te r))
              then interpolated_row' te prev (net_step te r)
              else Ok (current_row' (net_step te r))) as [row|e]; [|eauto].
    apply IH. pose proof (Hprog r) as Hp.
    assert (En : inject_Z (Z.of_nat (S fuel))
                 == inject_Z (Z.of_nat fuel) + 1).
    { rewrite Nat2Z.inj_succ. unfold Z.succ. apply inject_Z_succ. }
    set (n := inject_Z (Z.of_nat fuel)) in *.
    assert (Em : inject_Z (Z.of_nat (S fuel)) * step == n * step + step).
    { rewrite En. ring. }
    lra.
Qed.

(** After a completed iteration, with mass-fraction vectors of one
    length, the loop raises nothing. *)
Lemma integrate_bound_no_Raise (fuel : nat) (te : Q) :
  (forall r, length (reac_Y (net_step te r)) = length (reac_Y r)) ->
  forall (r : reactor) (table : list Table.row) (e : exn),
    integrate' fuel te r (Some (save_previous' r)) table <> Some (Raise e).
Proof.
  intro HY.
  induction fuel as [|fuel IH]; intros r table e.
  - rewrite integrate_O'. destruct (Qltb (net_time r) te); discriminate.
  - rewrite integrate_S'.
    destruct (Qltb (net_time r) te) eqn:E; [|discriminate].
    apply Qltb_lt in E.
    destruct (Qltb te (net_time (net_step te r))) eqn:E1; [|apply IH].
    apply Qltb_lt in E1.
    destruct (interpolated_row_spec reactor net_time reac_T thermo_P
                reac_volume reac_Y te (save_previous' r) (net_step te r))
      as (row & Hrow & _).
    { simpl. lra. }
    { exact E1. }
    { simpl. symmetry. apply HY. }
    rewrite Hrow. apply IH.
Qed.

(** X15.  With mass-fraction vectors of one length, [run_case] raises
    nothing unless its first advance goes past the end time. *)
Theorem run_case_no_exception (fuel : nat) (self : Simulation) (te : Q)
        (r0 : reactor) (e : exn) :
  time_end self = Some te ->
  (forall r, length (reac_Y (net_step te r)) = length (reac_Y r)) ->
  net_time (net_step te r0) <= te ->
  run_case' fuel self r0 <> Some (Raise e).
Proof.
  intros Hte HY H1. unfold run_case. rewrite Hte.
  destruct fuel as [|fuel].
  - rewrite integrate_O'. destruct (Qltb (net_time r0) te); discriminate.
  - rewrite integrate_S'.
    destruct (Qltb (net_time r0) te); [|discriminate].
    apply Qltb_ge in H1. rewrite H1.
    apply integrate_bound_no_Raise. exact HY.
Qed.

End TableFacts.

Lemma run_case_table_witness :
  exists table rows final,
    Ticker.run_case 4 (Cases.shock_tube (Name "pressure") "max") 0
    = Some (Ok table)
    /\ table = Cases.state 0 (1000 + 0) 100 1 [1 # 2; 1 # 2]
                 :: rows ++ [final]
    /\ Table.time final == 100
    /\ Forall (fun row => Table.time row <= 100) table.
Proof.
  destruct (Ticker.run_case 4 (Cases.shock_tube (Name "pressure") "max") 0)
    as [[table|e]|] eqn:H; try (vm_compute in H; discriminate).
  destruct (run_case_table Ticker.reactor Ticker.net_step Ticker.net_time
              Ticker.reac_T Ticker.thermo_P Ticker.reac_volume Ticker.reac_Y
              4 (Cases.shock_tube (Name "pressure") "max") 100 0 table)
    as (rows & final & Ht & Hf & Hall).
  - reflexivity.
  - reflexivity.
  - exact H.
  - exists table, rows, final. auto.
Defined.

Lemma run_case_times_increase_witness :
  exists table,
    Ticker.run_case 4 (Cases.shock_tube (Name "pressure") "max") 0
    = Some (Ok table)
    /\ StronglySorted Qlt (map Table.time table).
Proof.
  destruct (Ticker.run_case 4 (Cases.shock_tube (Name "pressure") "max") 0)
    as [[table|e]|] eqn:H; try (vm_compute in H; discriminate).
  exists table. split; [reflexivity|].
  apply (run_case_times_increase Ticker.reactor Ticker.net_step
           Ticker.net_time Ticker.reac_T Ticker.thermo_P Ticker.reac_volume
           Ticker.reac_Y 4 (Cases.shock_tube (Name "pressure") "max") 100 0).
  - reflexivity.
  - intro r. unfold Ticker.net_time, Ticker.net_step. lra.
  - exact H.
Defined.

Lemma run_case_terminates_witness :
  exists outcome,
    Ticker.run_case 4 (Cases.shock_tube (Name "pressure") "max") 0
    = Some outcome.
Proof.
  apply (run_case_terminates Ticker.reactor Ticker.net_step
           Ticker.net_time Ticker.reac_T Ticker.thermo_P Ticker.reac_volume
           Ticker.reac_Y 4 (Cases.shock_tube (Name "pressure") "max") 100 30 0).
  - reflexivity.
  - reflexivity.
  - intro r. unfold Ticker.net_time, Ticker.net_step. lra.
  - vm_compute. discriminate.
Defined.

Lemma run_case_no_exception_witness :
  Ticker.run_case 4 (Cases.shock_tube (Name "pressure") "max") 0
  <> Some (Raise IndexError)
  /\ Ticker.net_time (Ticker.net_step 100 0) <= 100.
Proof.
  split.
  - apply (run_case_no_exception Ticker.reactor Ticker.net_step
             Ticker.net_time Ticker.reac_T Ticker.thermo_P
             Ticker.reac_volume Ticker.reac_Y 4
             (Cases.shock_tube (Name "pressure") "max") 100 0 IndexError).
    + reflexivity.
    + intro r. reflexivity.
    + vm_compute. discriminate.
  - vm_compute. discriminate.
Defined.

(** ** The interpolated row *)





Section InterpolationFacts.

Variable reactor : Type.
Variables net_time reac_T thermo_P reac_volume : reactor -> Q.
Variable reac_Y : reactor -> list Q.

Local Abbreviation interpolated_row' :=
  (interpolated_row reactor net_time reac_T thermo_P reac_volume reac_Y).


End InterpolationFacts.


(** ** [setup_case]: outcomes *)

Lemma last_char_Raise (s : string) (e : exn) :
  last_char s = Raise e -> s = EmptyString /\ e = IndexError.
Proof.
  induction s as [|c s IH]; simpl.
  - intros [= <-]. auto.
  - destruct s as [|c' s']; [discriminate|].
    intro H. destruct (IH H) as [H' _]. discriminate.
Qed.

Section OutcomeFacts.

Variable species_index : string -> option nat.

Local Abbreviation setup_case' := (setup_case species_index).
Local Abbreviation lookup_first' := (lookup_first species_index).

(** X17.  After a successful [setup_case] the end time is 100 times the
    declared delay and the target is ['pressure'], ['temperature'] or a
    positive index that the mechanism returned for one of the candidate
    names; the type is changed, to ['d/dt max'], only together with the
    fallback on the pressure, which is also the only case in which a
    warning is printed. *)
Theorem setup_case_postcondition (self s' : Simulation) (out : list string) :
  setup_case' self = Ok (s', out) ->
  kind s' = kind self
  /\ props s' = props self
  /\ time_end s' = Some (100 * ignition_delay (props self))
  /\ ((ignition_target s' = ignition_target self
       /\ (ignition_target s' = Name "pressure"
           \/ ignition_target s' = Name "temperature")
       /\ ignition_type s' = ignition_type self
       /\ out = [])
      \/ (exists spec tl sp i,
             ignition_target self = Name spec
             /\ try_list spec = Ok tl /\ In sp tl
             /\ species_index sp = Some (S i)
             /\ ignition_target s' = Index (S i)
             /\ ignition_type s' = ignition_type self
             /\ out = [])
      \/ (exists spec,
             ignition_target self = Name spec
             /\ ignition_target s' = Name "pressure"
             /\ ignition_type s' = "d/dt max"%string
             /\ out = [warning spec])).
Proof.
  unfold setup_case. destruct (ignition_target self) as [spec|i] eqn:Ht;
    [|discriminate].
  destruct (String.eqb spec "pressure") eqn:Ep.
  { apply String.eqb_eq in Ep. subst spec. cbn [orb].
    intros [= <- <-]. cbn. repeat split. left. auto. }
  destruct (String.eqb spec "temperature") eqn:Etemp.
  { apply String.eqb_eq in Etemp. subst spec. cbn [orb].
    intros [= <- <-]. cbn. repeat split. left. auto. }
  cbn [orb]. intro H. apply bind_Ok in H. destruct H as (tl & Htl & H).
  destruct (lookup_first' tl) as [[|i]|] eqn:Hl; cbn in H;
    injection H as <- <-; cbn; repeat split.
  - right. right. exists spec. auto.
  - right. left.
    apply lookup_first_Some in Hl.
    destruct Hl as (before & sp & after & -> & _ & Hsp).
    exists spec, (before ++ sp :: after), sp, i.
    repeat split; auto. apply in_or_app. right. left. reflexivity.
  - right. right. exists spec. auto.
Qed.

(** X18.  [setup_case] raises in two cases only: [IndexError] for an
    empty target name, whose last character is read, and
    [AttributeError] for a target that is already an index. *)
Theorem setup_case_Raise_iff (self : Simulation) (e : exn) :
  setup_case' self = Raise e
  <-> ((ignition_target self = Name "" /\ e = IndexError)
       \/ (exists i, ignition_target self = Index i /\ e = AttributeError)).
Proof.
  unfold setup_case. split.
  - destruct (ignition_target self) as [spec|i].
    + destruct (String.eqb spec "pressure" || String.eqb spec "temperature")%bool;
        [discriminate|].
      intro H. apply bind_Raise in H. destruct H as [H|(tl & _ & H)].
      * unfold try_list in H. apply bind_Raise in H.
        destruct H as [H|(c & _ & H)]; [|discriminate].
        apply last_char_Raise in H. destruct H as [-> ->]. left. auto.
      * destruct (lookup_first' tl) as [[|i]|]; discriminate.
    + intros [= <-]. right. eauto.
  - intros [[-> ->]|(i & -> & ->)]; reflexivity.
Qed.

(** X19.  A second [setup_case] on the result of a first one changes
    nothing and prints nothing when the target is ['pressure'] or
    ['temperature'], and raises [AttributeError] when the first one
    resolved a species. *)
Theorem setup_case_twice (self s' : Simulation) (out : list string) :
  setup_case' self = Ok (s', out) ->
  match ignition_target s' with
  | Name _ => setup_case' s' = Ok (s', [])
  | Index _ => setup_case' s' = Raise AttributeError
  end.
Proof.
  unfold setup_case at 1. destruct (ignition_target self) as [spec|i] eqn:Ht;
    [|discriminate].
  destruct (String.eqb spec "pressure") eqn:Ep.
  { cbn [orb]. intros [= <- <-]. cbn [ignition_target with_target].
    unfold setup_case. cbn [ignition_target with_target]. rewrite Ep.
    reflexivity. }
  destruct (String.eqb spec "temperature") eqn:Etemp.
  { cbn [orb]. intros [= <- <-]. cbn [ignition_target with_target].
    unfold setup_case. cbn [ignition_target with_target]. rewrite Ep, Etemp.
    reflexivity. }
  cbn [orb]. intro H. apply bind_Ok in H. destruct H as (tl & Htl & H).
  destruct (lookup_first' tl) as [[|i]|] eqn:Hl; cbn in H;
    injection H as <- <-; reflexivity.
Qed.

End OutcomeFacts.

Lemma setup_case_postcondition_witness :
  let self := Cases.shock_tube (Name "OH*") "max" in
  exists s' out,
    setup_case (index_of ["H2"; "O2"; "OH"]%string) self = Ok (s', out)
    /\ kind s' = kind self
    /\ time_end s' = Some (100 * 1)
    /\ ignition_target s' = Index 2.
Proof.
  cbv zeta.
  destruct (setup_case (index_of ["H2"; "O2"; "OH"]%string)
                       (Cases.shock_tube (Name "OH*") "max"))
    as [[s' out]|e] eqn:H; [|vm_compute in H; discriminate].
  destruct (setup_case_postcondition _ _ _ _ H) as (Hk & _ & Hte & _).
  exists s', out. split; [reflexivity|]. split; [exact Hk|].
  split; [exact Hte|].
  vm_compute in H. injection H as <- _. reflexivity.
Defined.

Lemma setup_case_twice_witness :
  let self := Cases.shock_tube (Name "OH*") "max" in
  exists s' out,
    setup_case (index_of ["H2"; "O2"; "OH"]%string) self = Ok (s', out)
    /\ ignition_target s' = Index 2
    /\ setup_case (index_of ["H2"; "O2"; "OH"]%string) s'
       = Raise AttributeError.
Proof.
  cbv zeta.
  destruct (setup_case (index_of ["H2"; "O2"; "OH"]%string)
                       (Cases.shock_tube (Name "OH*") "max"))
    as [[s' out]|e] eqn:H; [|vm_compute in H; discriminate].
  pose proof (setup_case_twice _ _ _ _ H) as H2.
  assert (Ht : ignition_target s' = Index 2).
  { vm_compute in H. injection H as <- _. reflexivity. }
  rewrite Ht in H2.
  exists s', out. auto.
Defined.

(** ** The bound on the time step *)

Lemma diff_length (x : list Q) : length (Np13.diff x) = (length x - 1)%nat.
Proof.
  induction x as [|a [|b x] IH]; try reflexivity.
  change (Np13.diff (a :: b :: x)) with ((b - a) :: Np13.diff (b :: x)).
  simpl length in *. rewrite IH. lia.
Qed.

Lemma diff_nth (x : list Q) (i : nat) :
  (S i < length x)%nat ->
  nth i (Np13.diff x) 0 = nth (S i) x 0 - nth i x 0.
Proof.
  revert i. induction x as [|a [|b x] IH]; intros i Hi;
    try (simpl in Hi; lia).
  change (Np13.diff (a :: b :: x)) with ((b - a) :: Np13.diff (b :: x)).
  destruct i as [|i]; [reflexivity|].
  change (nth (S i) ((b - a) :: Np13.diff (b :: x)) 0)
    with (nth i (Np13.diff (b :: x)) 0).
  rewrite IH by (simpl in *; lia). reflexivity.
Qed.

Lemma min_from_spec (a : list Q) :
  forall best,
    min_from best a <= best
    /\ Forall (fun v => min_from best a <= v) a
    /\ In (min_from best a) (best :: a).
Proof.
  induction a as [|v a IH]; intro best; simpl.
  - split; [lra|]. split; [constructor|left; reflexivity].
  - destruct (IH (if Qltb v best then v else best)) as (H1 & H2 & H3).
    destruct (Qltb v best) eqn:E.
    + apply Qltb_lt in E. split; [lra|]. split.
      * constructor; [exact H1|exact H2].
      * destruct H3 as [H3|H3]; [right; left; exact H3|right; right; exact H3].
    + apply Qltb_ge in E. split; [exact H1|]. split.
      * constructor; [lra|exact H2].
      * destruct H3 as [H3|H3]; [left; exact H3|right; right; exact H3].
Qed.

(** X20.  For increasing times the bound on the time step is positive,
    is not above any spacing between consecutive times and is one of
    these spacings; a history with fewer than two times raises
    [ValueError]. *)
Theorem max_time_step_spec (time : list Q) :
  ((length time < 2)%nat -> max_time_step time = Raise ValueError)
  /\ (StronglySorted Qlt time -> (2 <= length time)%nat ->
      exists m,
        max_time_step time = Ok m
        /\ 0 < m
        /\ (forall i, (S i < length time)%nat ->
                      m <= nth (S i) time 0 - nth i time 0)
        /\ exists i, (S i < length time)%nat
                     /\ m = nth (S i) time 0 - nth i time 0).
Proof.
  unfold max_time_step. split.
  - intro H. destruct time as [|a [|b t]]; try reflexivity. simpl in H. lia.
  - intros Hs Hn.
    pose proof (diff_length time) as Hl.
    destruct (Np13.diff time) as [|v d] eqn:Ed; [simpl in Hl; lia|].
    destruct (min_from_spec d v) as (H1 & H2 & H3).
    assert (Hall : forall i, (S i < length time)%nat ->
                     min_from v d <= nth (S i) time 0 - nth i time 0).
    { intros i Hi. rewrite <- diff_nth by exact Hi. rewrite Ed.
      destruct i as [|i]; [exact H1|]. simpl.
      rewrite Forall_forall in H2. apply H2. apply nth_In.
      simpl in Hl. lia. }
    assert (Hin : exists i, (S i < length time)%nat
                   /\ min_from v d = nth (S i) time 0 - nth i time 0).
    { destruct (In_nth (v :: d) (min_from v d) 0 H3) as (i & Hi & Hnth).
      exists i. split; [simpl in Hi, Hl; lia|].
      rewrite <- diff_nth by (simpl in Hi, Hl; lia).
      rewrite Ed. symmetry. exact Hnth. }
    exists (min_from v d). split; [reflexivity|]. split; [|split; assumption].
    destruct Hin as (i & Hi & ->).
    pose proof (increasing_nth time i (S i) Hs ltac:(lia) Hi). lra.
Qed.

Lemma max_time_step_spec_witness :
  max_time_step [0] = Raise ValueError
  /\ exists m,
       max_time_step [0; 1; 3; 7 # 2] = Ok m
       /\ 0 < m
       /\ (forall i, (S i < 4)%nat ->
             m <= nth (S i) [0; 1; 3; 7 # 2] 0 - nth i [0; 1; 3; 7 # 2] 0)
       /\ exists i, (S i < 4)%nat
             /\ m = nth (S i) [0; 1; 3; 7 # 2] 0 - nth i [0; 1; 3; 7 # 2] 0.
Proof.
  split.
  - apply (proj1 (max_time_step_spec [0])). simpl. lia.
  - apply (proj2 (max_time_step_spec [0; 1; 3; 7 # 2]));
      [repeat constructor|simpl; lia].
Defined.

(** ** [process_results]: the reported delays *)

Lemma candidate_delays_positive (time : list Q) (ind : list nat)
      (max_peak : nat) (tc : Q) :
  Forall (fun d => 0 < d) (Spec.candidate_delays time ind max_peak tc).
Proof.
  unfold Spec.candidate_delays. rewrite Forall_forall. intros d Hd.
  apply in_map_iff in Hd. destruct Hd as (p & <- & Hp).
  apply filter_In in Hp. destruct Hp as [_ Hp].
  apply andb_true_iff in Hp. destruct Hp as [_ Hp].
  apply Qltb_lt in Hp. exact Hp.
Qed.

Lemma sorted_filter (f : nat -> bool) (l : list nat) :
  StronglySorted lt l -> StronglySorted lt (filter f l).
Proof.
  induction 1 as [|a l Hs IH Ha]; simpl; [constructor|].
  destruct (f a); [|exact IH].
  constructor; [exact IH|]. apply Forall_filter. exact Ha.
Qed.

Lemma last_sorted_max (l : list nat) (m d : nat) :
  StronglySorted lt l -> In m l -> Forall (fun p => (p <= m)%nat) l ->
  last l d = m.
Proof.
  induction 1 as [|a l Hs IH Ha]; intros Hin Hle; [contradiction|].
  destruct l as [|b l].
  - destruct Hin as [->|[]]. reflexivity.
  - change (last (a :: b :: l) d) with (last (b :: l) d).
    inversion Hle as [|? ? Ham Hlm]; subst.
    apply IH; [|exact Hlm].
    destruct Hin as [->|Hin]; [|exact Hin].
    inversion Ha as [|? ? Hab _]; subst.
    inversion Hlm as [|? ? Hbm _]; subst. lia.
Qed.

Lemma last_map_nonempty {A : Type} (f : A -> Q) (l : list A) (d : A) :
  l <> [] -> last (map f l) 0 = f (last l d).
Proof.
  induction l as [|a [|b l] IH]; intro H; [congruence|reflexivity|].
  change (last (map f (a :: b :: l)) 0) with (last (map f (b :: l)) 0).
  change (last (a :: b :: l) d) with (last (b :: l) d).
  apply IH. discriminate.
Qed.

Lemma sorted_last_above (l : list Q) (a : Q) :
  StronglySorted Qlt (a :: l) -> l <> [] -> a < last l 0.
Proof.
  intros Hs Hne. inversion Hs as [|? ? _ Ha]; subst.
  rewrite Forall_forall in Ha. apply Ha.
  destruct l as [|b l]; [congruence|].
  apply (@exists_last Q) in Hne. destruct Hne as (l' & x & E).
  rewrite E. rewrite last_last. apply in_or_app. right. left. reflexivity.
Qed.

Section ReportFacts.

Variable detect_peaks : list Q -> list nat.

(** X21.  With increasing recorded times and an ordered, non-empty array
    of peaks, the overall delay that [process_results] stores is a
    number of seconds that is not negative, and the first-stage delay is
    NaN or a positive number of seconds below the overall delay. *)
Theorem process_results_order (self : Simulation) (table : list Table.row)
        (target target' : list Q) (ind : list nat) :
  channel self table = Ok target ->
  find_peaks detect_peaks self (map Table.time table) target
  = Ok (target', ind) ->
  ind <> [] ->
  StronglySorted lt ind ->
  Forall (fun p => (p < length table)%nat) ind ->
  StronglySorted Qlt (map Table.time table) ->
  exists s overall,
    process_results detect_peaks self table = Ok s
    /\ simulated_ignition_delay (props s) = Some (Seconds overall)
    /\ 0 <= overall
    /\ (simulated_first_stage_delay (props s) = Some NaN_seconds
        \/ exists first_stage,
             simulated_first_stage_delay (props s)
             = Some (Seconds first_stage)
             /\ 0 < first_stage /\ first_stage < overall).
Proof.
  intros Hc Hf Hne Hs Hr Ht.
  assert (Hlen : length target' = length (map Table.time table)).
  { rewrite (find_peaks_length _ _ _ _ _ _ Hf), (channel_length _ _ _ Hc).
    now rewrite length_map. }
  assert (Hr' : Forall (fun p => (p < length (map Table.time table))%nat) ind)
    by (now rewrite length_map).
  destruct (select_delays_sorted self (map Table.time table) target' ind
                                 Hlen Hne Hs Hr')
    as (M & _ & _ & Hsel).
  cbv zeta in Hsel.
  rewrite (process_results_unfold detect_peaks self table target target' ind
                                  Hc Hf).
  rewrite Hsel. cbn [Py.bind].
  set (tc := match compression_time (props self) with
             | Some tc => tc
             | None => 0
             end) in *.
  pose proof (candidate_delays_positive (map Table.time table) ind M tc)
    as Hpos.
  pose proof (candidate_delays_increasing (map Table.time table) ind M tc
                Ht Hs Hr') as Hinc.
  destruct (Spec.candidate_delays (map Table.time table) ind M tc)
    as [|a [|b c]] eqn:Ec.
  - eexists. exists 0. cbn. split; [reflexivity|]. split; [reflexivity|].
    split; [lra|]. left. reflexivity.
  - eexists. exists a. cbn. split; [reflexivity|]. split; [reflexivity|].
    inversion Hpos; subst. split; [lra|]. left. reflexivity.
  - eexists. exists (last (b :: c) 0). cbn [props store_delays fst snd
      simulated_ignition_delay simulated_first_stage_delay
      Spec.overall_delay Spec.first_stage_delay].
    split; [reflexivity|]. split; [reflexivity|].
    pose proof (sorted_last_above (b :: c) a Hinc ltac:(discriminate)) as Hl.
    inversion Hpos; subst.
    split; [lra|]. right. exists a. split; [reflexivity|]. split; lra.
Qed.

(** X22.  The overall delay is the time of a highest peak less the
    compression time when that is positive; when it is not, and the
    recorded times increase, 0 s is stored with a NaN first-stage
    delay. *)
Theorem process_results_highest_peak (self : Simulation)
        (table : list Table.row) (target target' : list Q) (ind : list nat) :
  channel self table = Ok target ->
  find_peaks detect_peaks self (map Table.time table) target
  = Ok (target', ind) ->
  ind <> [] ->
  StronglySorted lt ind ->
  Forall (fun p => (p < length table)%nat) ind ->
  let time := map Table.time table in
  let tc := match compression_time (props self) with
            | Some tc => tc
            | None => 0
            end in
  exists s max_peak,
    process_results detect_peaks self table = Ok s
    /\ In max_peak ind
    /\ (forall p, In p ind -> nth p target' 0 <= nth max_peak target' 0)
    /\ (0 < nth max_peak time 0 - tc ->
        simulated_ignition_delay (props s)
        = Some (Seconds (nth max_peak time 0 - tc)))
    /\ (nth max_peak time 0 - tc <= 0 -> StronglySorted Qlt time ->
        simulated_ignition_delay (props s) = Some (Seconds 0)
        /\ simulated_first_stage_delay (props s) = Some NaN_seconds).
Proof.
  intros Hc Hf Hne Hs Hr. cbv zeta.
  assert (Hlen : length target' = length (map Table.time table)).
  { rewrite (find_peaks_length _ _ _ _ _ _ Hf), (channel_length _ _ _ Hc).
    now rewrite length_map. }
  assert (Hr' : Forall (fun p => (p < length (map Table.time table))%nat) ind)
    by (now rewrite length_map).
  destruct (select_delays_sorted self (map Table.time table) target' ind
                                 Hlen Hne Hs Hr')
    as (M & HinM & Hmax & Hsel).
  cbv zeta in Hsel.
  rewrite (process_results_unfold detect_peaks self table target target' ind
                                  Hc Hf).
  rewrite Hsel. cbn [Py.bind].
  set (time := map Table.time table) in *.
  set (tc := match compression_time (props self) with
             | Some tc => tc
             | None => 0
             end) in *.
  eexists. exists M. split; [reflexivity|].
  split; [exact HinM|]. split; [exact Hmax|].
  cbn [props store_delays fst snd simulated_ignition_delay
       simulated_first_stage_delay].
  set (g := fun p => (Nat.leb p M && Qltb 0 (nth p time 0 - tc))%bool).
  assert (Ec : Spec.candidate_delays time ind M tc
               = map (fun p => nth p time 0 - tc) (filter g ind))
    by reflexivity.
  split.
  - intro Hpos.
    assert (HinF : In M (filter g ind)).
    { apply filter_In. split; [exact HinM|]. unfold g.
      apply andb_true_iff. split; [apply Nat.leb_refl|].
      apply Qltb_lt. exact Hpos. }
    assert (HleF : Forall (fun p => (p <= M)%nat) (filter g ind)).
    { rewrite Forall_forall. intros p Hp. apply filter_In in Hp.
      destruct Hp as [_ Hp]. unfold g in Hp.
      apply andb_true_iff in Hp. destruct Hp as [Hp _].
      apply Nat.leb_le. exact Hp. }
    pose proof (last_sorted_max (filter g ind) M 0%nat
                  (sorted_filter g ind Hs) HinF HleF) as Hlast.
    assert (HneF : filter g ind <> [])
      by (intro E; rewrite E in HinF; contradiction).
    rewrite Ec. unfold Spec.overall_delay.
    destruct (map (fun p => nth p time 0 - tc) (filter g ind)) as [|a c] eqn:Em.
    + destruct (filter g ind); [congruence|discriminate].
    + rewrite <- Em. rewrite (last_map_nonempty _ _ 0%nat HneF).
      rewrite Hlast. reflexivity.
  - intros Hnon Ht.
    assert (Hnil : filter g ind = []).
    { destruct (filter g ind) as [|p l] eqn:Efil; [reflexivity|].
      assert (Hp : In p (filter g ind)) by (rewrite Efil; left; reflexivity).
      apply filter_In in Hp. destruct Hp as [Hpin Hp]. unfold g in Hp.
      apply andb_true_iff in Hp. destruct Hp as [Hle Hpos].
      apply Nat.leb_le in Hle. apply Qltb_lt in Hpos.
      rewrite Forall_forall in Hr'.
      pose proof (Hr' M HinM) as HM.
      destruct (Nat.eq_dec p M) as [->|Hne']; [lra|].
      pose proof (increasing_nth time p M Ht ltac:(lia) HM). lra. }
    rewrite Ec, Hnil. split; reflexivity.
Qed.

(** X23.  On a table with fewer than two rows [process_results] raises
    [ValueError] for a pressure or temperature target, with the type
    ['d/dt max'] and, when the detector finds no peak in the channel,
    with the type ['max']: no derivative exists. *)
Theorem process_results_short_table (self : Simulation)
        (table : list Table.row) (target : list Q) :
  channel self table = Ok target ->
  (length table < 2)%nat ->
  (ignition_type self = "d/dt max"%string
   \/ (ignition_type self = "max"%string /\ detect_peaks target = [])) ->
  process_results detect_peaks self table = Raise ValueError.
Proof.
  intros Hc Hn Hty. unfold process_results. rewrite Hc. cbn [Py.bind].
  assert (Hd : first_derivative (map Table.time table) target
               = Raise ValueError).
  { apply first_derivative_short. now rewrite length_map. }
  unfold find_peaks. destruct Hty as [Hty|[Hty Hnil]]; rewrite Hty.
  - cbn [String.eqb Ascii.eqb Bool.eqb]. rewrite Hd. reflexivity.
  - cbn [String.eqb Ascii.eqb Bool.eqb Py.bind]. rewrite Hnil.
    cbn [length Nat.eqb andb]. rewrite Hd. reflexivity.
Qed.

End ReportFacts.

Lemma process_results_order_witness :
  exists s overall first_stage,
    process_results DetectPeaks.detect_peaks
                    (Cases.shock_tube (Name "pressure") "max")
                    Cases.three_peaks = Ok s
    /\ simulated_ignition_delay (props s) = Some (Seconds overall)
    /\ 0 <= overall
    /\ simulated_first_stage_delay (props s) = Some (Seconds first_stage)
    /\ 0 < first_stage /\ first_stage < overall.
Proof.
  destruct (process_results_order DetectPeaks.detect_peaks
              (Cases.shock_tube (Name "pressure") "max") Cases.three_peaks
              (map Table.pressure Cases.three_peaks)
              (map Table.pressure Cases.three_peaks) [1; 3; 5]%nat)
    as (s & overall & Hs & Ho & Hpos & Hfirst);
    try reflexivity; try discriminate; try (repeat constructor).
  destruct Hfirst as [Hnan|(f & Hf & Hf0 & Hf1)].
  - exfalso. revert Hnan. vm_compute in Hs. injection Hs as <-.
    vm_compute. discriminate.
  - exists s, overall, f. auto 10.
Defined.

Lemma process_results_highest_peak_witness :
  exists s,
    process_results DetectPeaks.detect_peaks
                    (Cases.rcm (Name "pressure") "max")
                    Cases.three_peaks = Ok s
    /\ exists max_peak,
         In max_peak [1; 3; 5]%nat
         /\ (0 < nth max_peak (map Table.time Cases.three_peaks) 0 - 1 ->
             simulated_ignition_delay (props s)
             = Some (Seconds
                       (nth max_peak (map Table.time Cases.three_peaks) 0 - 1))).
Proof.
  destruct (process_results_highest_peak DetectPeaks.detect_peaks
              (Cases.rcm (Name "pressure") "max") Cases.three_peaks
              (map Table.pressure Cases.three_peaks)
              (map Table.pressure Cases.three_peaks) [1; 3; 5]%nat)
    as (s & M & Hs & HM & _ & Hpos & _);
    try reflexivity; try discriminate; try (repeat constructor).
  exists s. split; [exact Hs|]. exists M. split; [exact HM|exact Hpos].
Defined.

Lemma process_results_short_table_witness :
  process_results DetectPeaks.detect_peaks
                  (Cases.shock_tube (Name "pressure") "d/dt max")
                  (Cases.series [0] [1])
  = Raise ValueError.
Proof.
  apply (process_results_short_table DetectPeaks.detect_peaks
           (Cases.shock_tube (Name "pressure") "d/dt max")
           (Cases.series [0] [1]) [1]).
  - reflexivity.
  - simpl. lia.
  - left. reflexivity.
Defined.

(** ** [setup_case] followed by [process_results] *)

Section PipelineFacts.

Variable species_index : string -> option nat.
Variable detect_peaks : list Q -> list nat.

(** X24.  When [setup_case] printed the warning, [process_results] reads
    the pressure column and detects the peaks of its derivative in
    time, once. *)
Theorem fallback_analysis (self s' : Simulation) (out : list string)
        (table : list Table.row) (time target : list Q) :
  setup_case species_index self = Ok (s', out) ->
  out <> [] ->
  channel s' table = Ok (map Table.pressure table)
  /\ find_peaks detect_peaks s' time target
     = (d <- first_derivative time target ;; Ok (d, detect_peaks d)).
Proof.
  unfold setup_case. destruct (ignition_target self) as [spec|i];
    [|discriminate].
  destruct (String.eqb spec "pressure" || String.eqb spec "temperature")%bool.
  { intros [= <- <-] H. congruence. }
  intro H. apply bind_Ok in H. destruct H as (tl & _ & H).
  destruct (lookup_first species_index tl) as [[|i]|]; cbn in H;
    injection H as <- <-; intro Hout; try congruence.
  - split; [reflexivity|].
    unfold find_peaks. cbn [ignition_type with_target String.eqb Ascii.eqb
                            Bool.eqb].
    destruct (first_derivative time target); [|reflexivity].
    cbn [Py.bind]. rewrite andb_false_r. reflexivity.
  - split; [reflexivity|].
    unfold find_peaks. cbn [ignition_type with_target String.eqb Ascii.eqb
                            Bool.eqb].
    destruct (first_derivative time target); [|reflexivity].
    cbn [Py.bind]. rewrite andb_false_r. reflexivity.
Qed.

(** X25.  After a successful [setup_case], reading the diagnostic
    channel of a table raises nothing and returns one value for each
    row, when every row holds as many mass fractions as the mechanism
    has species and the mechanism returns indices below that number. *)
Theorem channel_after_setup (n : nat) (self s' : Simulation)
        (out : list string) (table : list Table.row) :
  setup_case species_index self = Ok (s', out) ->
  (forall sp i, species_index sp = Some i -> (i < n)%nat) ->
  Forall (fun row => length (Table.mass_fractions row) = n) table ->
  exists target,
    channel s' table = Ok target /\ length target = length table.
Proof.
  intros H Hidx Hrows.
  assert (Hc : forall i, (i < n)%nat ->
             exists target, mass_fraction_column table i = Ok target).
  { intros i Hi. unfold mass_fraction_column.
    exists (map (fun row => nth i (Table.mass_fractions row) 0) table).
    apply mapM_Ok_nth. intros row Hrow. apply getitem_nth.
    rewrite Forall_forall in Hrows. rewrite (Hrows row Hrow). exact Hi. }
  assert (Hgoal : exists target, channel s' table = Ok target).
  { unfold setup_case in H. destruct (ignition_target self) as [spec|i];
      [|discriminate].
    destruct (String.eqb spec "pressure") eqn:Ep.
    { cbn [orb] in H. injection H as <- _. unfold channel.
      cbn [ignition_target with_target]. rewrite Ep. eauto. }
    destruct (String.eqb spec "temperature") eqn:Etemp.
    { cbn [orb] in H. injection H as <- _. unfold channel.
      cbn [ignition_target with_target]. rewrite Ep, Etemp. eauto. }
    cbn [orb] in H. apply bind_Ok in H. destruct H as (tl & _ & H).
    destruct (lookup_first species_index tl) as [[|i]|] eqn:Hl; cbn in H;
      injection H as <- _; unfold channel; cbn [ignition_target with_target].
    - cbn. eauto.
    - apply lookup_first_Some in Hl.
      destruct Hl as (_ & sp & _ & _ & _ & Hsp).
      apply Hc. apply (Hidx sp). exact Hsp.
    - cbn. eauto. }
  destruct Hgoal as (target & Ht). exists target. split; [exact Ht|].
  apply (channel_length s' table target Ht).
Qed.

End PipelineFacts.

Lemma fallback_analysis_witness :
  let self := Cases.shock_tube (Name "CH*") "max" in
  exists s' out,
    setup_case (index_of ["H2"; "O2"; "OH"]%string) self = Ok (s', out)
    /\ out <> []
    /\ channel s' Cases.rising_front
       = Ok (map Table.pressure Cases.rising_front).
Proof.
  cbv zeta.
  destruct (setup_case (index_of ["H2"; "O2"; "OH"]%string)
                       (Cases.shock_tube (Name "CH*") "max"))
    as [[s' out]|e] eqn:H; [|vm_compute in H; discriminate].
  assert (Hout : out <> []).
  { vm_compute in H. injection H as _ <-. discriminate. }
  exists s', out. split; [reflexivity|]. split; [exact Hout|].
  apply (proj1 (fallback_analysis (index_of ["H2"; "O2"; "OH"]%string)
                  DetectPeaks.detect_peaks _ s' out Cases.rising_front
                  [] [] H Hout)).
Defined.

Lemma channel_after_setup_witness :
  let self := Cases.shock_tube (Name "H2") "max" in
  exists s' out target,
    setup_case (index_of ["OH"; "H2"]%string) self = Ok (s', out)
    /\ channel s' [Cases.state 0 1000 100 1 [0; 1]] = Ok target
    /\ length target = 1%nat.
Proof.
  cbv zeta.
  destruct (setup_case (index_of ["OH"; "H2"]%string)
                       (Cases.shock_tube (Name "H2") "max"))
    as [[s' out]|e] eqn:H; [|vm_compute in H; discriminate].
  destruct (channel_after_setup (index_of ["OH"; "H2"]%string) 2 _ s' out
              [Cases.state 0 1000 100 1 [0; 1]] H)
    as (target & Ht & Hl).
  - intros sp i. cbn [index_of].
    destruct (String.eqb "OH" sp); [intro Hi; inversion Hi; lia|].
    destruct (String.eqb "H2" sp); cbn [option_map];
      [intro Hi; inversion Hi; lia|discriminate].
  - repeat constructor.
  - exists s', out, target. auto.
Defined.

(** ** The volume history of a compression *)


Section CompressionFacts.

Variable density_TP : string -> string -> Q -> Q -> Q.
Variable entropy_TP : string -> string -> Q -> Q -> Q.
Variable density_SP : string -> string -> Q -> Q -> Q.
Variable density_default entropy_default : string -> Q.


End CompressionFacts.


Section HistoryStart.

Variable density_TP : string -> string -> Q -> Q -> Q.
Variable entropy_TP : string -> string -> Q -> Q -> Q.
Variable density_SP : string -> string -> Q -> Q -> Q.
Variable density_default entropy_default : string -> Q.

(** X27.  For a gas model whose density at the initial entropy and
    pressure is the initial density, not zero, the volume history
    starts at 1: it needs no division by its first element. *)
Theorem create_volume_history_starts_at_one (mech : string) (temp pres : Q)
        (reactants : string) (pres_rise time_end : Q) :
  0 <= time_end ->
  ~ density_TP mech reactants temp pres == 0 ->
  (forall p, p == pres ->
     density_SP mech reactants (entropy_TP mech reactants temp pres) p
     == density_TP mech reactants temp pres) ->
  nth 0 (snd (create_volume_history density_TP entropy_TP density_SP
                density_default entropy_default
                mech temp pres reactants pres_rise time_end)) 0
  == 1.
Proof.
  intros Hte Hrho Hcons.
  rewrite create_volume_history_unfold. cbn [snd].
  set (h := 1 / 20000).
  assert (Hh : 0 < h) by reflexivity.
  destruct (arange_reaches 0 (time_end + h) h Hh ltac:(lra)) as [Hn _].
  set (f := fun t => density_TP mech reactants temp pres
                     / density_SP mech reactants
                                  (entropy_TP mech reactants temp pres)
                                  (pres * (pres_rise * t + 1))).
  rewrite (nth_indep _ 0 (f 0)) by (rewrite length_map; exact Hn).
  rewrite (map_nth f). rewrite (arange_nth 0 (time_end + h) h 0 Hn).
  unfold f. rewrite Hcons.
  - field. exact Hrho.
  - change (inject_Z (Z.of_nat 0)) with 0. ring.
Qed.

End HistoryStart.

Lemma create_volume_history_starts_at_one_witness :
  nth 0 (snd (IdealGas.create_volume_history "h2.cti" 1000 101325 "H2:1" 10
                                             (1 # 10000))) 0
  == 1.
Proof.
  apply (create_volume_history_starts_at_one
           IdealGas.density_TP IdealGas.entropy_TP IdealGas.density_SP
           IdealGas.density_default IdealGas.entropy_default
           "h2.cti" 1000 101325 "H2:1" 10 (1 # 10000)).
  - discriminate.
  - discriminate.
  - intros p Hp. unfold IdealGas.density_SP, IdealGas.density_TP,
      IdealGas.entropy_TP. rewrite Hp. reflexivity.
Defined.
